(** * rabbitmq.connection: the connection core of the AMQP client

    A shallow embedding of [src/rabbitmq/connection.py] and the properties
    of its frame writer, tuning negotiator, channel-number allocator,
    close propagation and handshake.

    Python objects are immutable records here and every method of
    [Connection] is a function in a small state-and-exception monad over
    the connection record.  The modules [rabbitmq.spec], [rabbitmq.codec],
    [rabbitmq.channel] and [rabbitmq.simplebuffer] are collaborators of the
    connection: the little of them the connection relies on is modelled
    below, the rest is taken as a parameter. *)

From Stdlib Require Import ZArith NArith String Ascii List Lia.
From Stdlib.Strings Require Import Byte.
From stdpp Require Import base option list gmap relations.

Local Open Scope N_scope.

(** ** Data model *)

Definition bytes := list byte.

(** [rabbitmq.spec]: the method catalogue.  Only the methods the
    connection constructs or inspects are listed, each with the fields the
    connection reads or writes; [Other] stands for the rest. *)
Module spec.

Inductive Method :=
  | Start (mechanisms : string)
  | StartOk (client_properties : list (string * string))
            (mechanism response : string)
  | Tune (channel_max frame_max heartbeat : N)
  | TuneOk (channel_max frame_max heartbeat : N)
  | Open (virtual_host : string) (insist : bool)
  | OpenOk (known_hosts : string)
  | Close (reply_code : N) (reply_text : string) (class_id method_id : N)
  | CloseOk
  | Other (class_id method_id : N).

(** The classes of the methods, as they appear in
    [acceptable_replies] and as keys of a channel's [async_map]. *)
Inductive MethodClass :=
  | cStart | cStartOk | cTune | cTuneOk | cOpen | cOpenOk | cClose | cCloseOk
  | cOther (class_id method_id : N).

(** Content properties: an instance of a properties class of the
    catalogue.  Such an instance is always truthy. *)
Inductive BasicProperties := Properties (fields : list (string * string)).

End spec.

(** [rabbitmq.codec]: frames and the negotiated limits. *)
Module codec.

Inductive Frame :=
  | FrameProtocolHeader (a b major minor : N)
  | FrameMethod (channel_number : N) (method : spec.Method)
  | FrameHeader (channel_number : N) (body_size : N)
                (props : spec.BasicProperties)
  | FrameBody (channel_number : N) (fragment : bytes)
  | FrameHeartbeat.

(** Modelled from the spec: [codec.ConnectionState] is the
    negotiated-limits record the handshake mutates; an unset limit is
    falsy, which is 0 here.  [tune] applies the agreed values. *)
Record ConnectionState := {
  channel_max : N;
  frame_max : N;
}.

Definition tune (channel_max frame_max : N) (_ : ConnectionState)
  : ConnectionState :=
  {| codec.channel_max := channel_max; codec.frame_max := frame_max |}.

End codec.

(** [rabbitmq.simplebuffer] *)
Module simplebuffer.

(** Modelled from the spec: [SimpleBuffer] is a first-in first-out byte
    buffer.  [write] appends, [read] returns the unread bytes,
    [consume n] drops the first [n] unread bytes, [read_and_consume n]
    returns and drops them.  Sizes are Python integers; every size the
    properties below depend on lies between 0 and the buffer length. *)
Definition SimpleBuffer := bytes.

Definition new (data : bytes) : SimpleBuffer := data.
Definition write (data : bytes) (b : SimpleBuffer) : SimpleBuffer :=
  b ++ data.
Definition read (b : SimpleBuffer) : bytes := b.
Definition consume (size : Z) (b : SimpleBuffer) : SimpleBuffer :=
  drop (Z.to_nat size) b.
Definition read_and_consume (size : Z) (b : SimpleBuffer)
  : bytes * SimpleBuffer :=
  (take (Z.to_nat size) b, drop (Z.to_nat size) b).
Definition len (b : SimpleBuffer) : Z := Z.of_nat (length b).
Definition nonzero (b : SimpleBuffer) : bool :=
  match b with [] => false | _ :: _ => true end.

End simplebuffer.

(** [rabbitmq.channel] *)
Module channel.

(** The handlers a connection installs in a channel's [async_map]. *)
Inductive callback := _async_connection_close_cb.

(** Modelled from the spec: a [ChannelHandler] carries its channel
    number, its own close reason (if any) and its asynchronous
    subscriptions. *)
Record ChannelHandler := {
  channel_number : N;
  channel_close : option spec.Method;
  async_map : list (spec.MethodClass * callback);
}.

(** Modelled from the spec: the handler with its own close reason set
    to [c]. *)
Definition set_close (c : spec.Method) (h : ChannelHandler)
  : ChannelHandler :=
  {| channel_number := channel_number h;
     channel_close := Some c;
     async_map := async_map h |}.

Definition set_async (k : spec.MethodClass) (cb : callback)
           (h : ChannelHandler) : ChannelHandler :=
  {| channel_number := channel_number h;
     channel_close := channel_close h;
     async_map := (k, cb) :: async_map h |}.

(** Modelled from the spec: a freshly constructed handler for a given
    number, with no close reason and no subscription. *)
Definition fresh (n : N) : ChannelHandler :=
  {| channel_number := n; channel_close := None; async_map := [] |}.

End channel.

(** ** [connection.py] *)

Record PlainCredentials := {
  username : string;
  password : string;
}.

Record ConnectionParameters := {
  channel_max : N;
  frame_max : N;
  heartbeat : N;
}.

(** The bound methods the source stores in [self.frame_handler]. *)
Inductive handler := h_login1 | h_login2 | h_generic_frame_handler.

Record Connection := {
  state : codec.ConnectionState;
  credentials : option PlainCredentials;
  virtual_host : string;
  parameters : ConnectionParameters;
  outbound_buffer : simplebuffer.SimpleBuffer;
  frame_handler : handler;
  connection_open : bool;
  connection_close : option spec.Method;
  channels : gmap N channel.ChannelHandler;
  next_channel : N;
  known_hosts : option string;
}.

(** A Python value that ends up in the arguments of an exception. *)
Inductive pyval :=
| PyFrame (f : codec.Frame)
| PyBoundMethod (name : string)
| PyStr (s : string).

Inductive exn :=
| NoFreeChannels
| ConnectionClosed (reason : spec.Method)
| ChannelClosed (reason : spec.Method)
| ProtocolVersionMismatch (local remote : pyval)
| LoginError (msg : string) (arg : pyval)
| NameError (name : string)
| AttributeError (name : string)
| KeyError (key : N)
| socket_error
| NotImplementedError (msg : string).

(** What a call does: it returns, raises, or never comes back (the
    bounded loops below ran out of fuel). *)
Inductive outcome (A : Type) :=
| Return (a : A)
| Raise (e : exn)
| Diverge.
Arguments Return {A} a.
Arguments Raise {A} e.
Arguments Diverge {A}.

(** A method of [Connection]: from the object before the call to the
    outcome and the object after it.  An exception keeps the mutations
    made before it was raised. *)
Definition M (A : Type) : Type := Connection → outcome A * Connection.

Definition ret {A} (a : A) : M A := λ c, (Return a, c).
Definition raise {A} (e : exn) : M A := λ c, (Raise e, c).
Definition bind {A B} (m : M A) (k : A → M B) : M B :=
  λ c, match m c with
       | (Return a, c') => k a c'
       | (Raise e, c') => (Raise e, c')
       | (Diverge, c') => (Diverge, c')
       end.
Definition self : M Connection := λ c, (Return c, c).
Definition assign (f : Connection → Connection) : M unit :=
  λ c, (Return tt, f c).

Declare Scope py_scope.
Delimit Scope py_scope with py.
Notation "x <- m ;; k" := (bind m (λ x, k))
  (at level 100, m at next level, right associativity) : py_scope.
Notation "m ;;; k" := (bind m (λ _, k))
  (at level 100, right associativity) : py_scope.
Local Open Scope py_scope.

(** Field assignments. *)
Definition set_state (v : codec.ConnectionState) (c : Connection) :=
  {| state := v; credentials := credentials c;
     virtual_host := virtual_host c; parameters := parameters c;
     outbound_buffer := outbound_buffer c; frame_handler := frame_handler c;
     connection_open := connection_open c;
     connection_close := connection_close c; channels := channels c;
     next_channel := next_channel c; known_hosts := known_hosts c |}.
Definition set_credentials (v : option PlainCredentials) (c : Connection) :=
  {| state := state c; credentials := v;
     virtual_host := virtual_host c; parameters := parameters c;
     outbound_buffer := outbound_buffer c; frame_handler := frame_handler c;
     connection_open := connection_open c;
     connection_close := connection_close c; channels := channels c;
     next_channel := next_channel c; known_hosts := known_hosts c |}.
Definition set_outbound_buffer (v : simplebuffer.SimpleBuffer)
           (c : Connection) :=
  {| state := state c; credentials := credentials c;
     virtual_host := virtual_host c; parameters := parameters c;
     outbound_buffer := v; frame_handler := frame_handler c;
     connection_open := connection_open c;
     connection_close := connection_close c; channels := channels c;
     next_channel := next_channel c; known_hosts := known_hosts c |}.
Definition set_frame_handler (v : handler) (c : Connection) :=
  {| state := state c; credentials := credentials c;
     virtual_host := virtual_host c; parameters := parameters c;
     outbound_buffer := outbound_buffer c; frame_handler := v;
     connection_open := connection_open c;
     connection_close := connection_close c; channels := channels c;
     next_channel := next_channel c; known_hosts := known_hosts c |}.
Definition set_connection_open (v : bool) (c : Connection) :=
  {| state := state c; credentials := credentials c;
     virtual_host := virtual_host c; parameters := parameters c;
     outbound_buffer := outbound_buffer c; frame_handler := frame_handler c;
     connection_open := v;
     connection_close := connection_close c; channels := channels c;
     next_channel := next_channel c; known_hosts := known_hosts c |}.
Definition set_connection_close (v : option spec.Method) (c : Connection) :=
  {| state := state c; credentials := credentials c;
     virtual_host := virtual_host c; parameters := parameters c;
     outbound_buffer := outbound_buffer c; frame_handler := frame_handler c;
     connection_open := connection_open c;
     connection_close := v; channels := channels c;
     next_channel := next_channel c; known_hosts := known_hosts c |}.
Definition set_channels (v : gmap N channel.ChannelHandler)
           (c : Connection) :=
  {| state := state c; credentials := credentials c;
     virtual_host := virtual_host c; parameters := parameters c;
     outbound_buffer := outbound_buffer c; frame_handler := frame_handler c;
     connection_open := connection_open c;
     connection_close := connection_close c; channels := v;
     next_channel := next_channel c; known_hosts := known_hosts c |}.
Definition set_next_channel (v : N) (c : Connection) :=
  {| state := state c; credentials := credentials c;
     virtual_host := virtual_host c; parameters := parameters c;
     outbound_buffer := outbound_buffer c; frame_handler := frame_handler c;
     connection_open := connection_open c;
     connection_close := connection_close c; channels := channels c;
     next_channel := v; known_hosts := known_hosts c |}.
Definition set_known_hosts (v : option string) (c : Connection) :=
  {| state := state c; credentials := credentials c;
     virtual_host := virtual_host c; parameters := parameters c;
     outbound_buffer := outbound_buffer c; frame_handler := frame_handler c;
     connection_open := connection_open c;
     connection_close := connection_close c; channels := channels c;
     next_channel := next_channel c; known_hosts := v |}.

(** [combine_tuning(a, b)] *)
Definition combine_tuning (a b : N) : N :=
  if a =? 0 then b
  else if b =? 0 then a
  else N.min a b.

(** [PlainCredentials.response_for]: [str.split()] cuts at runs of
    whitespace. *)
Definition isspace (a : ascii) : bool :=
  let n := N_of_ascii a in (n =? 32) || ((9 <=? n) && (n <=? 13)).

Fixpoint split_from (word : string) (s : string) : list string :=
  match s with
  | EmptyString =>
      match word with EmptyString => [] | _ => [word] end
  | String a s' =>
      if isspace a then
        match word with
        | EmptyString => split_from EmptyString s'
        | _ => word :: split_from EmptyString s'
        end
      else split_from (word ++ String a EmptyString) s'
  end.

Definition split (s : string) : list string := split_from EmptyString s.

Definition response_for (self : PlainCredentials) (start : spec.Method)
  : outcome (option (string * string)) :=
  match start with
  | spec.Start mechanisms =>
      if negb (existsb (String.eqb "PLAIN") (split mechanisms)) then
        Return None
      else
        Return (Some ("PLAIN"%string,
                      String zero (username self)
                        ++ String zero (password self)))%string
  | _ => Raise (AttributeError "mechanisms")
  end.

(** What [send_method] unpacks from its [content] argument. *)
Inductive Content :=
| content_None
| content_body (body : bytes)
| content_tuple (props : option spec.BasicProperties) (body : option bytes).

Definition content_props (content : Content) : option spec.BasicProperties :=
  match content with
  | content_tuple props _ => props
  | _ => None
  end.

Definition content_body_of (content : Content) : option bytes :=
  match content with
  | content_tuple _ body => body
  | content_body body => Some body
  | content_None => None
  end.

(** Truthiness of [body]: neither [None] nor empty. *)
Definition truthy_body (body : option bytes) : option bytes :=
  match body with
  | Some (x :: b) => Some (x :: b)
  | _ => None
  end.

Definition frame_channel_number (frame : codec.Frame) : option N :=
  match frame with
  | codec.FrameMethod n _ | codec.FrameHeader n _ _ | codec.FrameBody n _ =>
      Some n
  | codec.FrameHeartbeat => Some 0
  | codec.FrameProtocolHeader _ _ _ _ => None
  end.

(** [channel.ChannelHandler._ensure].  Modelled from the spec: an
    operation attempted after the channel's close reason is recorded
    raises channel-closed carrying that reason. *)
Definition _ensure (h : channel.ChannelHandler) : M channel.ChannelHandler :=
  match channel.channel_close h with
  | Some r => raise (ChannelClosed r)
  | None => ret h
  end.

Section Connection.

(** The codec and the catalogue. *)
Variable marshal : codec.Frame → bytes.
Variables HEADER_SIZE FOOTER_SIZE : Z.
Variable PROTOCOL_VERSION : N * N.
Variable PORT : N.
Variable handle_input : codec.ConnectionState → bytes → N * option codec.Frame.

(** The transport a subclass mixes in. *)
Variable recv : N → outcome bytes.
Variable send : bytes → N.
Variable amqp_connect : string → N → M unit.
Variable drain_events : M unit.

(** The channel module: both calls run code that may call back into the
    connection, so they are methods on the connection record. *)
Variable wait_for_reply :
  channel.ChannelHandler → list spec.MethodClass → M spec.Method.
Variable channel_frame_handler :
  channel.ChannelHandler → codec.Frame → M unit.

Definition _local_protocol_header : codec.Frame :=
  codec.FrameProtocolHeader 1 1 (fst PROTOCOL_VERSION) (snd PROTOCOL_VERSION).

Definition handle_connect : M unit := ret tt.

Definition shutdown_event_loop : M unit := ret tt.
Definition handle_connection_open : M unit := ret tt.
Definition handle_connection_close : M unit := ret tt.

Definition writable (self_ : Connection) : bool :=
  negb (simplebuffer.len (outbound_buffer self_) =? 0)%Z.

Definition handle_write : M unit :=
  self_ <- self;;
  let r := send (simplebuffer.read (outbound_buffer self_)) in
  assign (λ s, set_outbound_buffer
                 (simplebuffer.consume (Z.of_N r) (outbound_buffer s)) s).

(** [_next_channel_number]: the loop stops by itself after at most
    [limit + 1] rounds, which is the fuel it is given. *)
Fixpoint _next_channel_number_loop (fuel : nat) (limit tries : N) : M N :=
  self_ <- self;;
  match channels self_ !! next_channel self_ with
  | Some _ =>
      match fuel with
      | O => λ s, (Diverge, s)
      | S fuel =>
          assign (λ s, set_next_channel ((next_channel s + 1) mod limit) s);;;
          let tries := tries + 1 in
          self_ <- self;;
          (if next_channel self_ =? 0 then assign (set_next_channel 1)
           else ret tt);;;
          if limit <? tries then raise NoFreeChannels
          else _next_channel_number_loop fuel limit tries
      end
  | None => ret (next_channel self_)
  end.

Definition channel_limit (self_ : Connection) : N :=
  if codec.channel_max (state self_) =? 0 then 32767
  else codec.channel_max (state self_).

Definition _next_channel_number : M N :=
  self_ <- self;;
  let tries := 0 in
  let limit := channel_limit self_ in
  _next_channel_number_loop (S (N.to_nat limit)) limit tries.

Definition _set_channel (channel_number : N) (ch : channel.ChannelHandler)
  : M unit :=
  assign (λ s, set_channels (<[channel_number := ch]> (channels s)) s).

Definition _ensure_channel (channel_number : N) : M channel.ChannelHandler :=
  self_ <- self;;
  match connection_close self_ with
  | Some reason => raise (ConnectionClosed reason)
  | None =>
      match channels self_ !! channel_number with
      | Some ch => _ensure ch
      | None => raise (KeyError channel_number)
      end
  end.

Definition reset_channel (channel_number : N) : M unit :=
  self_ <- self;;
  match channels self_ !! channel_number with
  | Some _ => assign (λ s, set_channels (delete channel_number (channels s)) s)
  | None => ret tt
  end.

(** [channel.ChannelHandler._set_channel_close], called on the handler
    object that the table holds under [key].  Modelled from the spec: on
    a channel without close reason the reason is set and the channel
    deallocates its number from the table of its connection (close
    propagation deallocates); on a channel that has a close reason the
    call does nothing, the first reason wins.  The handler is an object
    shared with the table, so the new reason shows in the entry that
    holds it; the value returned is the object as the call leaves it. *)
Definition _set_channel_close (c : spec.Method) (key : N)
           (chan : channel.ChannelHandler) : M channel.ChannelHandler :=
  match channel.channel_close chan with
  | Some _ => ret chan
  | None =>
      assign (λ s, set_channels
                     (alter (channel.set_close c) key (channels s)) s);;;
      reset_channel (channel.channel_number chan);;;
      ret (channel.set_close c chan)
  end.

(** The loop [for chan in self.channels.values()] of
    [_set_connection_close], over the handlers registered when it
    starts, each with the key that holds it; it yields the handlers as
    the calls leave them. *)
Fixpoint _set_connection_close_loop (c : spec.Method)
         (chans : list (N * channel.ChannelHandler))
  : M (list channel.ChannelHandler) :=
  match chans with
  | [] => ret []
  | (key, chan) :: chans =>
      chan' <- _set_channel_close c key chan;;
      chans' <- _set_connection_close_loop c chans;;
      ret (chan' :: chans')
  end.

(** [self.channels.items()] and [self.channels.values()]: lists built
    before the loop runs. *)
Definition items (self_ : Connection) : list (N * channel.ChannelHandler) :=
  map_to_list (channels self_).


Definition _set_connection_close (c : spec.Method) : M unit :=
  self_ <- self;;
  match connection_close self_ with
  | None =>
      assign (set_connection_close (Some c));;;
      _ <- _set_connection_close_loop c (items self_);;
      ret tt
  | Some _ => ret tt
  end.

Definition send_frame (frame : codec.Frame) : M unit :=
  assign (λ s, set_outbound_buffer
                 (simplebuffer.write (marshal frame) (outbound_buffer s)) s).

(** The [while body_buf] loop of [send_method]; [fuel] bounds its
    rounds. *)
Fixpoint send_body (fuel : nat) (channel_number : N) (maxpiece : Z)
         (body_buf : simplebuffer.SimpleBuffer) : M unit :=
  if simplebuffer.nonzero body_buf then
    match fuel with
    | O => λ s, (Diverge, s)
    | S fuel =>
        let piecelen := Z.min (simplebuffer.len body_buf) maxpiece in
        let '(piece, body_buf) :=
          simplebuffer.read_and_consume piecelen body_buf in
        send_frame (codec.FrameBody channel_number piece);;;
        send_body fuel channel_number maxpiece body_buf
    end
  else ret tt.

Definition send_method (fuel : nat) (channel_number : N)
           (method : spec.Method) (content : Content) : M unit :=
  send_frame (codec.FrameMethod channel_number method);;;
  let props := content_props content in
  let body := content_body_of content in
  match props with
  | Some props =>
      let length :=
        match truthy_body body with
        | Some body => N.of_nat (length body)
        | None => 0
        end in
      send_frame (codec.FrameHeader channel_number length props)
  | None => ret tt
  end;;;
  match truthy_body body with
  | Some body =>
      self_ <- self;;
      let maxpiece :=
        (Z.of_N (codec.frame_max (state self_))
         - HEADER_SIZE - FOOTER_SIZE)%Z in
      send_body fuel channel_number maxpiece (simplebuffer.new body)
  | None => ret tt
  end.

(** A call of [send_method] without content never enters the loop. *)
Definition send_method0 (channel_number : N) (method : spec.Method)
  : M unit :=
  send_method 0 channel_number method content_None.

Definition _rpc (channel_number : N) (method : spec.Method)
           (acceptable_replies : list spec.MethodClass) : M spec.Method :=
  ch <- _ensure_channel channel_number;;
  send_method0 channel_number method;;;
  wait_for_reply ch acceptable_replies.

Definition close : M unit :=
  self_ <- self;;
  (if connection_open self_ then
     assign (set_connection_open false);;;
     let c := spec.Close 200 "Normal shutdown" 0 0 in
     (_ <- _rpc 0 c [spec.cCloseOk];;
      _set_connection_close c)
   else ret tt);;;
  shutdown_event_loop.

Definition handle_close : M unit :=
  _set_connection_close (spec.Close 0 "Socket closed" 0 0);;;
  close.

Definition _erase_credentials : M unit :=
  assign (set_credentials None).

Definition _login1 (frame : codec.Frame) : M unit :=
  match frame with
  | codec.FrameProtocolHeader _ _ _ _ =>
      raise (ProtocolVersionMismatch
               (PyBoundMethod "_local_protocol_header") (PyFrame frame))
  | _ =>
      self_ <- self;;
      match credentials self_ with
      | None => raise (AttributeError "response_for")
      | Some creds =>
          match frame with
          | codec.FrameMethod _ method =>
              response <- (λ s, (response_for creds method, s));;
              match response with
              | None => raise (NameError "credentials")
              | Some response =>
                  send_method0 0
                    (spec.StartOk [("product", "RabbitMQ Python")]%string
                                  (fst response) (snd response));;;
                  _erase_credentials;;;
                  assign (set_frame_handler h_login2)
              end
          | _ => raise (AttributeError "method")
          end
      end
  end.

(** [channel.ChannelHandler(connection, channel_number)].  Modelled from
    the spec: the constructor takes the given number or allocates one,
    and registers the new handler in the channel table. *)
Definition ChannelHandler (channel_number : option N)
  : M channel.ChannelHandler :=
  n <- match channel_number with
       | Some n => ret n
       | None => _next_channel_number
       end;;
  let h := channel.fresh n in
  _set_channel n h;;;
  ret h.

(** The handler of channel 0 is registered by its constructor and then
    given the subscription: the table entry is the same object. *)
Definition _install_channel0 : M unit :=
  c <- ChannelHandler (Some 0);;
  assign (λ s, set_channels
                 (<[0 := channel.set_async spec.cClose
                           channel._async_connection_close_cb c]>
                    (channels s)) s).

(** [channel()]: the application-facing [channel.Channel] wraps the
    handler returned here. *)
Definition channel_ : M channel.ChannelHandler := ChannelHandler None.

Definition _login2 (frame : codec.Frame) : M unit :=
  match frame with
  | codec.FrameMethod _ (spec.Tune server_channel_max server_frame_max
                                   server_heartbeat) =>
      self_ <- self;;
      let channel_max :=
        combine_tuning (channel_max (parameters self_)) server_channel_max in
      let frame_max :=
        combine_tuning (frame_max (parameters self_)) server_frame_max in
      assign (λ s, set_state (codec.tune channel_max frame_max (state s)) s);;;
      send_method0 0
        (spec.TuneOk channel_max frame_max
           (combine_tuning (heartbeat (parameters self_)) server_heartbeat));;;
      assign (set_frame_handler h_generic_frame_handler);;;
      _install_channel0;;;
      self_ <- self;;
      reply <- _rpc 0 (spec.Open (virtual_host self_) true) [spec.cOpenOk];;
      match reply with
      | spec.OpenOk known_hosts =>
          assign (set_known_hosts (Some known_hosts));;;
          assign (set_connection_open true);;;
          handle_connection_open
      | _ => raise (AttributeError "known_hosts")
      end
  | codec.FrameMethod _ _ => raise (AttributeError "channel_max")
  | _ => raise (AttributeError "method")
  end.

Fixpoint wait_for_open (fuel : nat) : M unit :=
  self_ <- self;;
  if negb (connection_open self_)
     && negb (bool_decide (is_Some (connection_close self_))) then
    match fuel with
    | O => λ s, (Diverge, s)
    | S fuel => drain_events;;; wait_for_open fuel
    end
  else ret tt.

Definition _async_connection_close (method_frame : codec.Frame) : M unit :=
  match method_frame with
  | codec.FrameMethod _ method =>
      _set_connection_close method;;;
      assign (set_connection_open false);;;
      send_method0 0 spec.CloseOk;;;
      handle_connection_close
  | _ => raise (AttributeError "method")
  end.

Definition _generic_frame_handler (frame : codec.Frame) : M unit :=
  match frame with
  | codec.FrameHeartbeat => send_frame frame
  | _ =>
      self_ <- self;;
      match frame_channel_number frame with
      | Some n =>
          match channels self_ !! n with
          | Some ch => channel_frame_handler ch frame
          | None => raise (KeyError n)
          end
      | None => raise (AttributeError "channel_number")
      end
  end.

Definition call_frame_handler (h : handler) (frame : codec.Frame) : M unit :=
  match h with
  | h_login1 => _login1 frame
  | h_login2 => _login2 frame
  | h_generic_frame_handler => _generic_frame_handler frame
  end.

(** The [while buf] loop of [handle_read]. *)
Fixpoint handle_read_loop (fuel : nat) (buf : bytes) : M unit :=
  match buf with
  | [] => ret tt
  | _ :: _ =>
      match fuel with
      | O => λ s, (Diverge, s)
      | S fuel =>
          self_ <- self;;
          let '(consumed_count, frame) := handle_input (state self_) buf in
          let buf := drop (N.to_nat consumed_count) buf in
          match frame with
          | Some frame =>
              self_ <- self;;
              call_frame_handler (frame_handler self_) frame
          | None => ret tt
          end;;;
          handle_read_loop fuel buf
      end
  end.

Definition handle_read (fuel : nat) : M unit :=
  self_ <- self;;
  let b := codec.channel_max (state self_) in
  let b := if b =? 0 then 131072 else b in
  match recv b with
  | Raise socket_error => handle_close;;; raise socket_error
  | Raise e => raise e
  | Diverge => λ s, (Diverge, s)
  | Return [] => close
  | Return buf => handle_read_loop fuel buf
  end.

(** The fields as [__init__] sets them, before it connects. *)
Definition new_Connection (virtual_host : string)
           (credentials : option PlainCredentials)
           (parameters : option ConnectionParameters) : Connection :=
  {| state := {| codec.channel_max := 0; codec.frame_max := 0 |};
     credentials :=
       Some (default {| username := "guest"; password := "guest" |}
                     credentials);
     virtual_host := virtual_host;
     parameters :=
       default {| channel_max := 0; frame_max := 131072; heartbeat := 0 |}
               parameters;
     outbound_buffer := simplebuffer.new [];
     frame_handler := h_login1;
     connection_open := false;
     connection_close := None;
     channels := ∅;
     next_channel := 0;
     known_hosts := None |}.

Definition __init__ (fuel : nat) (host : string) (port : option N)
           (virtual_host : string) (credentials : option PlainCredentials)
           (parameters : option ConnectionParameters) (wait : bool)
  : outcome unit * Connection :=
  (amqp_connect host (match port with
                      | Some p => if p =? 0 then PORT else p
                      | None => PORT
                      end);;;
   send_frame _local_protocol_header;;;
   if wait then wait_for_open fuel else ret tt)
    (new_Connection virtual_host credentials parameters).


(** [k] calls of [channel()] in a row, each handler staying registered;
    the numbers handed out, up to the first call that raises. *)
Fixpoint open_channels (k : nat) (s : Connection) : list N * Connection :=
  match k with
  | O => ([], s)
  | S k =>
      match channel_ s with
      | (Return h, s') =>
          let '(ns, s'') := open_channels k s' in
          (channel.channel_number h :: ns, s'')
      | (_, s') => ([], s')
      end
  end.

(** One round of the allocator's scan: the cursor after the loop body. *)
Definition advance (limit x : N) : N :=
  let y := (x + 1) mod limit in if y =? 0 then 1 else y.

(** ** Reachable states

    Every assignment to a field of the connection object in
    [connection.py] is one of the following.  Whatever the transport and
    the channel module do between two of them, a run of a connection is a
    sequence of these steps as long as the collaborators change the
    connection through its methods only. *)
Inductive step : Connection → Connection → Prop :=
| step_send_frame s data :
    step s (set_outbound_buffer
              (simplebuffer.write data (outbound_buffer s)) s)
| step_handle_write s r :
    step s (set_outbound_buffer
              (simplebuffer.consume r (outbound_buffer s)) s)
| step_set_connection_close s c :
    step s (snd (_set_connection_close c s))
| step_connection_open s b :
    step s (set_connection_open b s)
| step_next_channel_number s :
    step s (snd (_next_channel_number s))
| step_set_channel s n ch :
    step s (snd (_set_channel n ch s))
| step_reset_channel s n :
    step s (snd (reset_channel n s))
| step_erase_credentials s :
    step s (snd (_erase_credentials s))
| step_frame_handler s h :
    h ≠ h_login1 → step s (set_frame_handler h s)
| step_tune s channel_max frame_max :
    step s (set_state (codec.tune channel_max frame_max (state s)) s)
| step_known_hosts s hosts :
    step s (set_known_hosts (Some hosts) s)
| step_channel_object s n ch ch' :
    channels s !! n = Some ch →
    step s (set_channels (<[n := ch']> (channels s)) s).

Definition reachable : Connection → Connection → Prop := rtc step.

(** A call that leaves the connection in a state reachable from the one
    it found, whatever its outcome. *)
Definition preserves {A} (m : M A) : Prop :=
  ∀ s, reachable s (snd (m s)).

(** ** The claims as the specification words them, where the code
    differs *)

(** Registration on a closed connection gives the channel a close
    reason at once. *)
Definition registration_assigns_reason (s : Connection) (n : N)
           (ch : channel.ChannelHandler) : Prop :=
  is_Some (connection_close s) →
  ∃ ch', channels (snd (_set_channel n ch s)) !! n = Some ch'
         ∧ is_Some (channel.channel_close ch').

(** Every number handed out by a run of allocations is non-zero. *)
Definition allocations_nonzero (s : Connection) : Prop :=
  ∀ k, Forall (λ n, n ≠ 0) (fst (open_channels k s)).

(** A number that is allocated, registered and deallocated is not handed
    out again by the very next allocation when another admissible number
    is free. *)
Definition no_immediate_reuse (s : Connection) : Prop :=
  ∀ n s1 ch m s2,
    _next_channel_number s = (Return n, s1) →
    (∃ other, other ≠ n ∧ 1 ≤ other ≤ channel_limit s
              ∧ channels s1 !! other = None) →
    _next_channel_number (snd (reset_channel n (snd (_set_channel n ch s1))))
      = (Return m, s2) →
    m ≠ n.

(** The frames of one submission, as the fragmentation rule words them:
    [pieces] are the body payloads. *)
Definition fragmentation_rule (maxpiece : Z) (body : bytes)
           (pieces : list bytes) : Prop :=
  concat pieces = body
  ∧ Z.of_nat (length pieces)
    = ((Z.of_nat (length body) + maxpiece - 1) / maxpiece)%Z
  ∧ ∀ i piece, pieces !! i = Some piece →
               (0 < Z.of_nat (length piece) ≤ maxpiece)%Z
               ∧ ((S i < length pieces)%nat →
                  Z.of_nat (length piece) = maxpiece).

(** The bytes one submission appends to the outbound buffer: the method
    frame, the header frame when there are properties, the body frames. *)
Definition submission (channel_number : N) (method : spec.Method)
           (content : Content) (pieces : list bytes) : bytes :=
  marshal (codec.FrameMethod channel_number method)
  ++ match content_props content with
     | Some props =>
         marshal (codec.FrameHeader channel_number
                    (N.of_nat (length (default [] (content_body_of content))))
                    props)
     | None => []
     end
  ++ concat (map (λ piece, marshal (codec.FrameBody channel_number piece))
                 pieces).

Definition maxpiece_of (s : Connection) : Z :=
  (Z.of_N (codec.frame_max (state s)) - HEADER_SIZE - FOOTER_SIZE)%Z.

(** [send_method] returns with given fuel, having appended the
    submission with body frames [pieces] and touched nothing else. *)
Definition enqueues (fuel : nat) (s : Connection) (channel_number : N)
           (method : spec.Method) (content : Content) (pieces : list bytes)
  : Prop :=
  send_method fuel channel_number method content s
  = (Return tt,
     set_outbound_buffer
       (outbound_buffer s ++ submission channel_number method content pieces)
       s).

(** One submission is enqueued whole and its body is cut by the
    fragmentation rule. *)
Definition send_method_fragments (s : Connection) (channel_number : N)
           (method : spec.Method) (content : Content) : Prop :=
  ∃ fuel pieces,
    enqueues fuel s channel_number method content pieces
    ∧ fragmentation_rule (maxpiece_of s)
        (default [] (content_body_of content)) pieces.

(** The state in which runs of allocations are considered: the cursor
    is within the limit and, while it is still 0, channel 0 is
    registered (the handshake registers it before any channel is
    opened). *)
Definition allocator_ready (s : Connection) : Prop :=
  (next_channel s = 0 → is_Some (channels s !! 0))
  ∧ next_channel s ≤ channel_limit s.

(** A mechanism name: non-empty and free of whitespace. *)
Definition word (w : string) : Prop :=
  w ≠ EmptyString ∧ Forall (λ a, isspace a = false) (list_ascii_of_string w).

(** The handler object after a call of [_set_channel_close(c)] on it. *)
Definition closed_with (c : spec.Method) (chan : channel.ChannelHandler)
  : channel.ChannelHandler :=
  match channel.channel_close chan with
  | Some _ => chan
  | None => channel.set_close c chan
  end.

(** The channel table after calls of [_set_channel_close] on [chans]:
    each handler that had no close reason shows the reason in the entry
    that holds it and has deallocated its number. *)
Definition cascaded (c : spec.Method)
           (chans : list (N * channel.ChannelHandler))
           (table : gmap N channel.ChannelHandler)
  : gmap N channel.ChannelHandler :=
  foldl (λ m '(key, chan),
           match channel.channel_close chan with
           | Some _ => m
           | None => delete (channel.channel_number chan)
                            (alter (channel.set_close c) key m)
           end) table chans.

(** ** Values for concrete runs *)

(** A stand-in for the wire encoding: a type octet, then the body size
    for a header frame and the payload for a body frame. *)
Definition example_marshal (frame : codec.Frame) : bytes :=
  match frame with
  | codec.FrameProtocolHeader _ _ _ _ => [x41; x4d; x51; x50]
  | codec.FrameMethod _ _ => [x01]
  | codec.FrameHeader _ body_size _ =>
      [x02; default x00 (Byte.of_N (body_size mod 256))]
  | codec.FrameBody _ fragment => x03 :: fragment
  | codec.FrameHeartbeat => [x08]
  end.

(** A connection as the handshake leaves it: limits tuned, credentials
    erased, channel 0 installed, open. *)
Definition example_tuned (channel_max frame_max : N) : Connection :=
  set_connection_open true
    (set_channels
       {[ 0 := channel.set_async spec.cClose
                 channel._async_connection_close_cb (channel.fresh 0) ]}
       (set_frame_handler h_generic_frame_handler
          (set_credentials None
             (set_state {| codec.channel_max := channel_max;
                           codec.frame_max := frame_max |}
                        (new_Connection "/" None None))))).

(** The same connection after the transport failed. *)
Definition example_closed : Connection :=
  set_connection_open false
    (snd (_set_connection_close (spec.Close 0 "Socket closed" 0 0)
            (example_tuned 0 4096))).

(** ** Properties *)

Ltac run := unfold bind, ret, raise, self, assign; simpl.

(** *** Tuning negotiator *)

(** C2: [combine_tuning] is commutative, zero on either side yields the
    other side's value, and two non-zero values yield the smaller. *)
Theorem combine_tuning_negotiates (a b : N) :
  combine_tuning a b = combine_tuning b a
  ∧ combine_tuning 0 b = b
  ∧ combine_tuning a 0 = a
  ∧ (a ≠ 0 → b ≠ 0 → combine_tuning a b = N.min a b).
Proof.
  unfold combine_tuning. repeat split.
  - destruct (N.eqb_spec a 0), (N.eqb_spec b 0); subst; auto. apply N.min_comm.
  - destruct (N.eqb_spec a 0); subst; auto.
  - intros Ha Hb. apply N.eqb_neq in Ha, Hb. now rewrite Ha, Hb.
Qed.

(** *** Close reason *)

Lemma bind_return {A B} (m : M A) (k : A → M B) s a s' :
  m s = (Return a, s') → bind m k s = k a s'.
Proof. unfold bind. now intros ->. Qed.

Lemma set_channels_id s : set_channels (channels s) s = s.
Proof. now destruct s. Qed.

Lemma reset_channel_eq n s :
  reset_channel n s = (Return tt, set_channels (delete n (channels s)) s).
Proof.
  unfold reset_channel. run. destruct (channels s !! n) eqn:E; [done|].
  rewrite delete_id by done. now rewrite set_channels_id.
Qed.

Lemma set_channel_close_eq c key chan s :
  _set_channel_close c key chan s
  = (Return (closed_with c chan),
     set_channels (cascaded c [(key, chan)] (channels s)) s).
Proof.
  unfold _set_channel_close, closed_with, cascaded. simpl.
  destruct (channel.channel_close chan).
  - unfold ret. now rewrite set_channels_id.
  - unfold bind, assign. now rewrite reset_channel_eq.
Qed.

Lemma set_connection_close_loop_eq c chans s :
  _set_connection_close_loop c chans s
  = (Return (closed_with c <$> (chans.*2)),
     set_channels (cascaded c chans (channels s)) s).
Proof.
  revert s. induction chans as [|[key chan] chans IH]; intros s; simpl.
  - unfold ret. now rewrite set_channels_id.
  - unfold bind. rewrite set_channel_close_eq, IH. reflexivity.
Qed.

Lemma set_connection_close_closed s c reason :
  connection_close s = Some reason →
  _set_connection_close c s = (Return tt, s).
Proof.
  intros H. unfold _set_connection_close.
  rewrite (bind_return self _ s s s eq_refl). now rewrite H.
Qed.

Lemma set_connection_close_first s c :
  connection_close s = None →
  _set_connection_close c s
  = (Return tt,
     set_channels (cascaded c (items s) (channels s))
                  (set_connection_close (Some c) s)).
Proof.
  intros H. unfold _set_connection_close.
  rewrite (bind_return self _ s s s eq_refl). rewrite H.
  erewrite bind_return by reflexivity.
  erewrite bind_return by apply set_connection_close_loop_eq.
  reflexivity.
Qed.

(** Recording a close reason writes the reason and the table and
    nothing else. *)
Lemma set_connection_close_frame c s :
  fst (_set_connection_close c s) = Return tt
  ∧ ∃ table,
      snd (_set_connection_close c s)
      = set_channels table
          (set_connection_close
             (Some (default c (connection_close s))) s).
Proof.
  destruct (connection_close s) as [reason|] eqn:E.
  - rewrite (set_connection_close_closed _ _ _ E). split; [done|].
    exists (channels s). simpl. rewrite <- E. now destruct s.
  - rewrite (set_connection_close_first _ _ E). split; [done|]. eauto.
Qed.

Lemma cascaded_cons c key chan chans table :
  cascaded c ((key, chan) :: chans) table
  = cascaded c chans (cascaded c [(key, chan)] table).
Proof. reflexivity. Qed.

Lemma cascaded_one_ne c key chan table n h :
  n ≠ key →
  cascaded c [(key, chan)] table !! n = Some h → table !! n = Some h.
Proof.
  intros Hne. unfold cascaded. simpl.
  destruct (channel.channel_close chan); [done|].
  intros [_ H]%lookup_delete_Some. now rewrite lookup_alter_ne in H.
Qed.

Lemma cascaded_one_eq c key chan table h :
  (∀ x, table !! key = Some x → x = chan) →
  cascaded c [(key, chan)] table !! key = Some h → h = closed_with c chan.
Proof.
  intros Hinv. unfold cascaded, closed_with. simpl.
  destruct (channel.channel_close chan); [apply Hinv|].
  intros [_ H]%lookup_delete_Some.
  apply lookup_alter_Some in H as [(_ & x & Hx & ->)|[? _]]; [|done].
  now rewrite (Hinv x Hx).
Qed.

Lemma cascaded_one_Some c key chan table n h :
  cascaded c [(key, chan)] table !! n = Some h → is_Some (table !! n).
Proof.
  unfold cascaded. simpl. destruct (channel.channel_close chan); [eauto|].
  intros [_ H]%lookup_delete_Some.
  destruct (table !! n) eqn:E; [eauto|].
  now rewrite (proj2 (lookup_alter_None _ _ _ _) E) in H.
Qed.

Lemma cascaded_None c chans table n :
  table !! n = None → cascaded c chans table !! n = None.
Proof.
  revert table. induction chans as [|[key chan] chans IH]; intros table H;
    [done|].
  rewrite cascaded_cons. apply IH.
  destruct (cascaded c [(key, chan)] table !! n) eqn:E; [|done].
  apply cascaded_one_Some in E as [x E]. congruence.
Qed.

(** What the cascade leaves in the table is a handler that was there,
    closed by the cascade when the loop visited it. *)
Lemma cascaded_lookup_Some c chans table n h' :
  NoDup (chans.*1) →
  (∀ key chan, (key, chan) ∈ chans →
               ∀ x, table !! key = Some x → x = chan) →
  cascaded c chans table !! n = Some h' →
  (∃ h, (n, h) ∈ chans ∧ h' = closed_with c h)
  ∨ ((n ∉ chans.*1) ∧ table !! n = Some h').
Proof.
  revert table.
  induction chans as [|[key chan] chans IH]; intros table Hnd Hinv H.
  { right. split; [apply not_elem_of_nil | done]. }
  simpl in Hnd. apply NoDup_cons in Hnd as [Hkey Hnd].
  rewrite cascaded_cons in H. apply IH in H as [(h & Hin & ->)|[Hn H]].
  - left. exists h. split; [now apply elem_of_cons; right | done].
  - destruct (decide (n = key)) as [->|Hne].
    + left. exists chan. split; [apply elem_of_cons; by left|].
      apply cascaded_one_eq in H; [done|].
      apply Hinv, elem_of_cons. by left.
    + right. split.
      * simpl. intros [?|?]%elem_of_cons; done.
      * now apply cascaded_one_ne in H.
  - done.
  - intros key' chan' Hin x Hx.
    assert (key' ≠ key) as Hne.
    { intros ->. apply Hkey, list_elem_of_fmap. now exists (key, chan'). }
    apply cascaded_one_ne in Hx; [|done].
    apply (Hinv key' chan'); [apply elem_of_cons; by right | done].
Qed.

Lemma cascaded_deallocates c chans table key chan :
  (key, chan) ∈ chans → channel.channel_close chan = None →
  cascaded c chans table !! channel.channel_number chan = None.
Proof.
  intros Hin Hnone. revert table.
  induction chans as [|[key' chan'] chans IH]; intros table.
  { by apply not_elem_of_nil in Hin. }
  rewrite cascaded_cons.
  apply elem_of_cons in Hin as [[= <- <-]|Hin]; [|now apply IH].
  apply cascaded_None. unfold cascaded. simpl. rewrite Hnone.
  apply lookup_delete_eq.
Qed.

Lemma lookup_items s n chan :
  channels s !! n = Some chan ↔ (n, chan) ∈ items s.
Proof. unfold items. now rewrite elem_of_map_to_list. Qed.


Lemma cascaded_items_Some c s n h' :
  cascaded c (items s) (channels s) !! n = Some h' →
  ∃ h, channels s !! n = Some h ∧ h' = closed_with c h.
Proof.
  intros H. apply cascaded_lookup_Some in H as [(h & Hin & ->)|[Hn H]].
  - exists h. split; [now apply lookup_items | done].
  - exfalso. apply Hn, list_elem_of_fmap. exists (n, h').
    split; [done | now apply lookup_items].
  - apply NoDup_fst_map_to_list.
  - intros key chan Hin x Hx. apply lookup_items in Hin. congruence.
Qed.

Lemma cascaded_items_None c s n h :
  channels s !! n = Some h → channel.channel_close h = None →
  cascaded c (items s) (channels s) !! channel.channel_number h = None.
Proof.
  intros H Hnone. apply cascaded_deallocates with n; [|done].
  now apply lookup_items.
Qed.

(** The allocator writes the cursor and nothing else. *)
Lemma next_channel_number_loop_frame fuel limit tries s :
  ∃ n, snd (_next_channel_number_loop fuel limit tries s)
       = set_next_channel n s.
Proof.
  revert tries s. induction fuel as [|fuel IH]; intros tries s; simpl; run.
  - exists (next_channel s). destruct s, (_ !! _); reflexivity.
  - destruct (channels s !! next_channel s) eqn:E.
    2:{ exists (next_channel s). destruct s; reflexivity. }
    destruct ((next_channel s + 1) mod limit =? 0);
      destruct (limit <? tries + 1); simpl; eauto;
      match goal with |- context [_next_channel_number_loop _ _ _ ?s'] =>
        destruct (IH (tries + 1) s') as [n ->] end; eauto.
Qed.

Lemma next_channel_number_frame s :
  ∃ n, snd (_next_channel_number s) = set_next_channel n s.
Proof. apply next_channel_number_loop_frame. Qed.


Lemma step_credentials s s' :
  step s s' → credentials s = None → credentials s' = None.
Proof.
  intros Hstep H. destruct Hstep; simpl; auto.
  - destruct (set_connection_close_frame c s) as (_ & table & ->). auto.
  - destruct (next_channel_number_frame s) as [n ->]. exact H.
  - unfold reset_channel. run. now destruct (_ !! _).
Qed.


Lemma reachable_credentials s s' :
  reachable s s' → credentials s = None → credentials s' = None.
Proof. induction 1; eauto using step_credentials. Qed.


(** *** RPC on a closed connection *)

(** C5: with a close reason recorded, [_rpc] raises connection-closed
    carrying that reason and leaves the connection, its outbound buffer
    included, as it was. *)
Theorem rpc_on_closed_connection (s : Connection) (reason : spec.Method)
        (channel_number : N) (method : spec.Method)
        (acceptable_replies : list spec.MethodClass) :
  connection_close s = Some reason →
  _rpc channel_number method acceptable_replies s
  = (Raise (ConnectionClosed reason), s)
  ∧ outbound_buffer
      (snd (_rpc channel_number method acceptable_replies s))
    = outbound_buffer s.
Proof.
  intros H. unfold _rpc, _ensure_channel. run. now rewrite H.
Qed.

(** *** Handshake *)

(** C6: on a protocol-header frame [_login1] raises the version-mismatch
    error; its second argument is the peer's frame, its first argument is
    the bound method [_local_protocol_header], not the header that method
    returns. *)
Theorem login1_version_mismatch (s : Connection) (a b major minor : N) :
  let peer := codec.FrameProtocolHeader a b major minor in
  _login1 peer s
  = (Raise (ProtocolVersionMismatch
              (PyBoundMethod "_local_protocol_header") (PyFrame peer)), s)
  ∧ PyBoundMethod "_local_protocol_header" ≠ PyFrame _local_protocol_header.
Proof. split; [reflexivity | discriminate]. Qed.

Lemma send_method0_credentials n m s :
  fst (send_method0 n m s) = Return tt
  ∧ credentials (snd (send_method0 n m s)) = credentials s
  ∧ frame_handler (snd (send_method0 n m s)) = frame_handler s.
Proof. unfold send_method0, send_method, send_frame. run. auto. Qed.

(** C9: when [_login1] returns, the credentials are gone and the frame
    handler is [_login2]; the credentials stay gone in every state the
    connection reaches afterwards. *)
Theorem credentials_erased_after_login1
        (frame : codec.Frame) (s s' : Connection) :
  _login1 frame s = (Return tt, s') →
  credentials s' = None
  ∧ frame_handler s' = h_login2
  ∧ ∀ s'', reachable s' s'' → credentials s'' = None.
Proof.
  intros H.
  assert (credentials s' = None ∧ frame_handler s' = h_login2) as [Hc Hf].
  { unfold _login1 in H. destruct frame; try discriminate H;
      revert H; run; destruct (credentials s); try discriminate.
    destruct (response_for p method) as [[r|]| |]; try discriminate.
    unfold send_method0, send_method, send_frame, _erase_credentials. run.
    intros [= <-]. auto. }
  repeat split; auto. intros s'' Hr. eauto using reachable_credentials.
Qed.

(** *** Registration *)

(** C7: [_set_channel] stores the handler as it is given, whatever the
    connection's close reason: registration assigns the channel no close
    reason.  An RPC on a channel registered after the close still fails,
    on the connection's own reason. *)
Theorem set_channel_keeps_handler
        (s : Connection) (n : N) (ch : channel.ChannelHandler) :
  let s' := snd (_set_channel n ch s) in
  fst (_set_channel n ch s) = Return tt
  ∧ channels s' !! n = Some ch
  ∧ connection_close s' = connection_close s
  ∧ ∀ reason, connection_close s = Some reason →
      _ensure_channel n s' = (Raise (ConnectionClosed reason), s').
Proof.
  simpl. repeat split.
  - apply lookup_insert_eq.
  - intros reason H. unfold _ensure_channel. run. now rewrite H.
Qed.

(** *** Outbound frame writer *)

Lemma set_outbound_buffer_id s :
  set_outbound_buffer (outbound_buffer s) s = s.
Proof. now destruct s. Qed.

Lemma send_frame_eq frame s :
  send_frame frame s
  = (Return tt, set_outbound_buffer (outbound_buffer s ++ marshal frame) s).
Proof. reflexivity. Qed.

Lemma send_body_cons fuel n maxpiece x buf s :
  send_body (S fuel) n maxpiece (x :: buf) s
  = let k := Z.to_nat (Z.min (simplebuffer.len (x :: buf)) maxpiece) in
    send_body fuel n maxpiece (drop k (x :: buf))
      (set_outbound_buffer
         (outbound_buffer s
          ++ marshal (codec.FrameBody n (take k (x :: buf)))) s).
Proof. reflexivity. Qed.

Lemma fragmentation_rule_nil maxpiece pieces :
  (0 < maxpiece)%Z → fragmentation_rule maxpiece [] pieces → pieces = [].
Proof.
  intros Hm (_ & Hn & _). simpl in Hn.
  rewrite Z.div_small in Hn by lia. destruct pieces; [done | simpl in Hn; lia].
Qed.

Lemma fragmentation_rule_empty maxpiece :
  (0 < maxpiece)%Z → fragmentation_rule maxpiece [] [].
Proof.
  intros Hm. split; [done|]. split.
  - simpl. now rewrite Z.div_small by lia.
  - intros i piece Hi. done.
Qed.

Lemma fragmentation_rule_cons maxpiece (buf : bytes) pieces :
  (0 < maxpiece)%Z → buf ≠ [] →
  let k := Z.to_nat (Z.min (Z.of_nat (length buf)) maxpiece) in
  fragmentation_rule maxpiece (drop k buf) pieces →
  fragmentation_rule maxpiece buf (take k buf :: pieces).
Proof.
  intros Hm Hne k (Hcat & Hnum & Hsize).
  assert (0 < length buf)%nat as Hlen by (destruct buf; simpl; [done | lia]).
  assert (length (take k buf) = k) as Hk by (rewrite length_take; lia).
  assert (length (drop k buf) = length buf - k)%nat as Hd
      by apply length_drop.
  split; [|split].
  - simpl. rewrite Hcat. apply take_drop.
  - simpl length. rewrite Nat2Z.inj_succ, Hnum, Hd.
    destruct (Z_le_gt_dec (Z.of_nat (length buf)) maxpiece) as [Hle|Hgt].
    + replace (length buf - k)%nat with 0%nat by lia. simpl.
      rewrite Z.div_small by lia.
      apply Z.div_unique with (Z.of_nat (length buf) - 1)%Z; lia.
    + replace (Z.of_nat (length buf - k)) with
        (Z.of_nat (length buf) - maxpiece)%Z by lia.
      replace (Z.of_nat (length buf) + maxpiece - 1)%Z with
        (Z.of_nat (length buf) - maxpiece + maxpiece - 1 + 1 * maxpiece)%Z
        by lia.
      rewrite Z.div_add by lia. lia.
  - intros [|i] piece Hi; simpl in Hi.
    + injection Hi as <-. rewrite Hk. split; [lia|].
      simpl. intros Hmore.
      destruct (Z_le_gt_dec (Z.of_nat (length buf)) maxpiece) as [Hle|Hgt];
        [|lia].
      assert (drop k buf = []) as Hnil
          by (apply length_zero_iff_nil; lia).
      rewrite Hnil in Hcat, Hnum. simpl in Hnum.
      rewrite Z.div_small in Hnum by lia. lia.
    + destruct (Hsize i piece Hi) as [Hb Hfull]. split; [done|].
      simpl. intros Hmore. apply Hfull. lia.
Qed.

Lemma send_body_fragments fuel n maxpiece (buf : bytes) s :
  (0 < maxpiece)%Z → (length buf ≤ fuel)%nat →
  ∃ pieces,
    send_body fuel n maxpiece buf s
    = (Return tt,
       set_outbound_buffer
         (outbound_buffer s
          ++ concat (map (λ piece, marshal (codec.FrameBody n piece)) pieces))
         s)
    ∧ fragmentation_rule maxpiece buf pieces.
Proof.
  intros Hm. revert buf s.
  induction fuel as [|fuel IH]; intros buf s Hfuel.
  - destruct buf; [|simpl in Hfuel; lia].
    exists []. simpl. rewrite app_nil_r, set_outbound_buffer_id.
    split; [done|]. now apply fragmentation_rule_empty.
  - destruct buf as [|x buf].
    { exists []. simpl. rewrite app_nil_r, set_outbound_buffer_id.
      split; [done|]. now apply fragmentation_rule_empty. }
    rewrite send_body_cons. cbv zeta.
    set (k := Z.to_nat (Z.min (simplebuffer.len (x :: buf)) maxpiece)).
    assert (1 ≤ k)%nat as Hk1
        by (unfold k, simplebuffer.len; simpl length; lia).
    edestruct (IH (drop k (x :: buf))) as (pieces & Hrun & Hrule).
    { rewrite length_drop. simpl length in *. lia. }
    exists (take k (x :: buf) :: pieces). split.
    + rewrite Hrun. simpl. now rewrite <- !app_assoc.
    + apply fragmentation_rule_cons; done.
Qed.

(** With no room for a payload the loop sends empty pieces for ever. *)
Lemma send_body_no_progress fuel n (buf : bytes) s :
  buf ≠ [] → fst (send_body fuel n 0 buf s) = Diverge.
Proof.
  intros Hne. destruct buf as [|x buf]; [done|]. clear Hne. revert s.
  induction fuel as [|fuel IH]; intros s; [done|].
  rewrite send_body_cons. cbv zeta.
  replace (Z.to_nat (Z.min (simplebuffer.len (x :: buf)) 0)) with 0%nat
    by (unfold simplebuffer.len; lia).
  apply IH.
Qed.

Lemma send_method_eq fuel n method content s :
  send_method fuel n method content s
  = let s1 := set_outbound_buffer
                (outbound_buffer s
                 ++ marshal (codec.FrameMethod n method)
                 ++ match content_props content with
                    | Some props =>
                        marshal
                          (codec.FrameHeader n
                             (N.of_nat
                                (length (default [] (content_body_of content))))
                             props)
                    | None => []
                    end) s in
    match truthy_body (content_body_of content) with
    | Some body => send_body fuel n (maxpiece_of s) body s1
    | None => (Return tt, s1)
    end.
Proof.
  unfold send_method, maxpiece_of, send_frame. run.
  unfold simplebuffer.write, simplebuffer.new.
  destruct (content_props content) as [props|],
           (content_body_of content) as [[|x body]|];
    simpl; rewrite <- ?app_assoc, ?app_nil_r; reflexivity.
Qed.

(** C1, for a frame-max that leaves room for a payload: [send_method]
    appends to the outbound buffer the method frame, then the header
    frame with the properties and the body length exactly when there are
    properties, then the body frames, whose payloads are the body cut in
    order into pieces of the maximal size, the last one possibly
    shorter; it changes nothing else, and any fuel from the body length
    on is enough for it to return. *)
Theorem send_method_frames (s : Connection) (channel_number : N)
        (method : spec.Method) (content : Content) :
  (HEADER_SIZE + FOOTER_SIZE < Z.of_N (codec.frame_max (state s)))%Z →
  send_method_fragments s channel_number method content
  ∧ ∀ fuel, (length (default [] (content_body_of content)) ≤ fuel)%nat →
      ∃ pieces,
        enqueues fuel s channel_number method content pieces
        ∧ fragmentation_rule (maxpiece_of s)
            (default [] (content_body_of content)) pieces.
Proof.
  intros Hroom.
  assert (0 < maxpiece_of s)%Z as Hm by (unfold maxpiece_of; lia).
  assert (∀ fuel, (length (default [] (content_body_of content)) ≤ fuel)%nat →
      ∃ pieces,
        enqueues fuel s channel_number method content pieces
        ∧ fragmentation_rule (maxpiece_of s)
            (default [] (content_body_of content)) pieces) as Hall.
  { intros fuel Hfuel. unfold enqueues, submission.
    rewrite send_method_eq. cbv zeta.
    destruct (content_body_of content) as [[|x body]|]; simpl truthy_body.
    - exists []. simpl. rewrite !app_nil_r. split; [done|].
      now apply fragmentation_rule_empty.
    - match goal with |- context [send_body _ _ _ _ ?s1] =>
        destruct (send_body_fragments fuel channel_number (maxpiece_of s)
                    (x :: body) s1 Hm Hfuel) as (pieces & Hrun & Hrule) end.
      exists pieces. split; [|done]. rewrite Hrun. simpl.
      now rewrite <- !app_assoc.
    - exists []. simpl. rewrite !app_nil_r. split; [done|].
      now apply fragmentation_rule_empty. }
  split; [|exact Hall].
  destruct (Hall _ (Nat.le_refl _)) as (pieces & ? & ?).
  now exists (length (default [] (content_body_of content))), pieces.
Qed.

(** *** Channel-number allocator *)

Lemma set_next_channel_id s : set_next_channel (next_channel s) s = s.
Proof. now destruct s. Qed.

Lemma channel_limit_nonzero s : channel_limit s ≠ 0.
Proof.
  unfold channel_limit.
  destruct (N.eqb_spec (codec.channel_max (state s)) 0); [done | auto].
Qed.

Lemma next_channel_number_eq s :
  _next_channel_number s
  = _next_channel_number_loop (S (N.to_nat (channel_limit s)))
      (channel_limit s) 0 s.
Proof. reflexivity. Qed.

Lemma next_channel_number_loop_free fuel limit tries s :
  channels s !! next_channel s = None →
  _next_channel_number_loop fuel limit tries s = (Return (next_channel s), s).
Proof. intros H. destruct fuel; simpl; run; now rewrite H. Qed.

Lemma next_channel_number_loop_stuck limit tries s :
  is_Some (channels s !! next_channel s) →
  _next_channel_number_loop 0 limit tries s = (Diverge, s).
Proof. intros [h H]. simpl. run. now rewrite H. Qed.

Lemma next_channel_number_loop_taken fuel limit tries s :
  is_Some (channels s !! next_channel s) →
  _next_channel_number_loop (S fuel) limit tries s
  = if limit <? tries + 1
    then (Raise NoFreeChannels,
          set_next_channel (advance limit (next_channel s)) s)
    else _next_channel_number_loop fuel limit (tries + 1)
           (set_next_channel (advance limit (next_channel s)) s).
Proof.
  intros [h H]. simpl. run. rewrite H. unfold advance.
  destruct ((next_channel s + 1) mod limit =? 0); simpl;
    destruct (limit <? tries + 1); reflexivity.
Qed.

Lemma advance_range limit x :
  limit ≠ 0 →
  1 ≤ advance limit x ∧ (advance limit x < limit ∨ advance limit x = 1).
Proof.
  intros Hl. unfold advance. cbv zeta.
  destruct (N.eqb_spec ((x + 1) mod limit) 0) as [|Hne]; cbv iota; [lia|].
  pose proof (N.mod_lt (x + 1) limit Hl).
  generalize dependent ((x + 1) mod limit). intros; lia.
Qed.

(** The fuel of [_next_channel_number] is enough: the loop returns or
    raises. *)
Lemma next_channel_number_loop_total fuel limit tries s :
  tries ≤ limit → (N.to_nat (limit - tries) < fuel)%nat →
  fst (_next_channel_number_loop fuel limit tries s) ≠ Diverge.
Proof.
  revert tries s. induction fuel as [|fuel IH]; intros tries s Ht Hf; [lia|].
  destruct (channels s !! next_channel s) eqn:E.
  - rewrite next_channel_number_loop_taken by eauto.
    destruct (N.ltb_spec limit (tries + 1)); [done|]. apply IH; lia.
  - now rewrite next_channel_number_loop_free.
Qed.

Lemma next_channel_number_loop_return fuel limit tries s n s' :
  limit ≠ 0 →
  _next_channel_number_loop fuel limit tries s = (Return n, s') →
  channels s !! n = None
  ∧ s' = set_next_channel n s
  ∧ (n = next_channel s ∨ (1 ≤ n ∧ (n < limit ∨ n = 1))).
Proof.
  intros Hl. revert tries s.
  induction fuel as [|fuel IH]; intros tries s H;
    destruct (channels s !! next_channel s) eqn:E.
  - rewrite next_channel_number_loop_stuck in H by eauto. discriminate.
  - rewrite next_channel_number_loop_free in H by done.
    injection H as <- <-. now rewrite set_next_channel_id; auto.
  - rewrite next_channel_number_loop_taken in H by eauto.
    destruct (limit <? tries + 1); [discriminate|].
    apply IH in H as (Hfree & -> & Hn). simpl in *.
    repeat split; auto. right.
    destruct Hn as [->|]; [by apply advance_range | done].
  - rewrite next_channel_number_loop_free in H by done.
    injection H as <- <-. now rewrite set_next_channel_id; auto.
Qed.

Lemma next_channel_number_return s n s' :
  _next_channel_number s = (Return n, s') →
  channels s !! n = None
  ∧ s' = set_next_channel n s
  ∧ (n = next_channel s
     ∨ (1 ≤ n ∧ (n < channel_limit s ∨ n = 1))).
Proof.
  rewrite next_channel_number_eq.
  apply next_channel_number_loop_return, channel_limit_nonzero.
Qed.

Lemma next_channel_number_total s :
  fst (_next_channel_number s) ≠ Diverge.
Proof.
  rewrite next_channel_number_eq.
  apply next_channel_number_loop_total; lia.
Qed.

Lemma next_channel_number_loop_exhausted fuel limit tries s :
  limit ≠ 0 → tries ≤ limit → (N.to_nat (limit - tries) < fuel)%nat →
  (∀ n, 1 ≤ n ≤ limit → is_Some (channels s !! n)) →
  is_Some (channels s !! next_channel s) →
  fst (_next_channel_number_loop fuel limit tries s) = Raise NoFreeChannels.
Proof.
  intros Hl. revert tries s.
  induction fuel as [|fuel IH]; intros tries s Ht Hf Hall Hcur; [lia|].
  rewrite next_channel_number_loop_taken by done.
  destruct (N.ltb_spec limit (tries + 1)); [done|].
  apply IH; simpl; try lia; try done.
  apply Hall. pose proof (advance_range limit (next_channel s) Hl). lia.
Qed.

Lemma open_channels_return k s n s1 :
  _next_channel_number s = (Return n, s1) →
  open_channels (S k) s
  = (n :: fst (open_channels k (snd (_set_channel n (channel.fresh n) s1))),
     snd (open_channels k (snd (_set_channel n (channel.fresh n) s1)))).
Proof.
  intros H. simpl. unfold channel_, ChannelHandler. run. rewrite H. simpl.
  now destruct (open_channels k _).
Qed.

Lemma open_channels_stop k s :
  (∀ n, fst (_next_channel_number s) ≠ Return n) →
  fst (open_channels (S k) s) = [].
Proof.
  intros H. simpl. unfold channel_, ChannelHandler. run.
  destruct (_next_channel_number s) as [[n| |] s1]; simpl; try done.
  now destruct (H n).
Qed.

Lemma open_channels_fresh k s :
  allocator_ready s →
  NoDup (fst (open_channels k s))
  ∧ Forall (λ n, n ≠ 0 ∧ n ≤ channel_limit s ∧ channels s !! n = None)
           (fst (open_channels k s)).
Proof.
  revert s. induction k as [|k IH]; intros s [H0 Hle].
  { simpl. split; constructor. }
  destruct (_next_channel_number s) as [[n| |] s1] eqn:E.
  2,3: rewrite open_channels_stop by (intros n; rewrite E; done);
       split; constructor.
  rewrite (open_channels_return _ _ _ _ E). simpl fst.
  apply next_channel_number_return in E as (Hfree & -> & Hn).
  assert (n ≠ 0 ∧ n ≤ channel_limit s) as [Hn0 Hnle].
  { pose proof (channel_limit_nonzero s).
    destruct Hn as [->|]; [|lia]. split; [|done].
    intros Hz. destruct (H0 Hz) as [h Hh]. rewrite Hz in Hfree. congruence. }
  set (s2 := snd (_set_channel n (channel.fresh n) (set_next_channel n s))).
  destruct (IH s2) as [Hnd Hall].
  { split; simpl; [done | exact Hnle]. }
  assert (Forall (λ m, m ≠ n ∧ channels s !! m = None)
                 (fst (open_channels k s2))) as Hother.
  { eapply Forall_impl; [exact Hall|]. simpl. intros m (_ & _ & Hm).
    apply lookup_insert_None in Hm as [? ?]. auto. }
  split.
  - constructor; [|done]. intros Hin.
    rewrite Forall_forall in Hother. now destruct (Hother n Hin).
  - constructor; [auto|].
    rewrite Forall_forall in Hall, Hother |- *. intros m Hm.
    destruct (Hall m Hm) as (? & ? & _), (Hother m Hm). auto.
Qed.

(** The scan finds a free number that lies [d] rounds ahead. *)
Lemma next_channel_number_loop_scan d fuel limit tries s :
  tries + N.of_nat d ≤ limit → (d < fuel)%nat →
  channels s !! Nat.iter d (advance limit) (next_channel s) = None →
  ∃ i, (i ≤ d)%nat
       ∧ channels s !! Nat.iter i (advance limit) (next_channel s) = None
       ∧ _next_channel_number_loop fuel limit tries s
         = (Return (Nat.iter i (advance limit) (next_channel s)),
            set_next_channel (Nat.iter i (advance limit) (next_channel s)) s).
Proof.
  revert fuel tries s. induction d as [|d IH]; intros fuel tries s Ht Hf Hfree.
  - exists 0%nat. simpl in *. split; [done|]. split; [done|].
    now rewrite next_channel_number_loop_free, set_next_channel_id.
  - destruct (channels s !! next_channel s) eqn:E.
    2:{ exists 0%nat. simpl. split; [lia|]. split; [done|].
        now rewrite next_channel_number_loop_free, set_next_channel_id. }
    destruct fuel as [|fuel]; [lia|].
    rewrite next_channel_number_loop_taken by eauto.
    destruct (N.ltb_spec limit (tries + 1)); [lia|].
    rewrite Nat.iter_succ_r in Hfree.
    destruct (IH fuel (tries + 1)
                 (set_next_channel (advance limit (next_channel s)) s))
      as (i & Hi & Hfree' & Hrun); [lia | lia | done |].
    exists (S i). rewrite Nat.iter_succ_r. simpl in Hfree', Hrun.
    split; [lia|]. split; [done | exact Hrun].
Qed.

Lemma advance_iter_up limit k c :
  c + N.of_nat k < limit →
  Nat.iter k (advance limit) c = c + N.of_nat k.
Proof.
  induction k as [|k IH]; intros Hlt; simpl Nat.iter; [lia|].
  rewrite IH by lia. unfold advance. cbv zeta.
  rewrite N.mod_small by lia.
  destruct (N.eqb_spec (c + N.of_nat k + 1) 0); cbv iota; lia.
Qed.

Lemma advance_wrap limit x : limit ≠ 0 → x + 1 = limit → advance limit x = 1.
Proof.
  intros Hl H. unfold advance. cbv zeta. rewrite H, N.Div0.mod_same.
  reflexivity.
Qed.

Lemma advance_reaches_in_range limit c n :
  1 ≤ n → n < limit → c < limit →
  ∃ d, N.of_nat d < limit ∧ Nat.iter d (advance limit) c = n.
Proof.
  intros H1 Hn Hc. destruct (N.le_gt_cases c n) as [Hle|Hgt].
  - exists (N.to_nat (n - c)). split; [lia|].
    rewrite advance_iter_up; lia.
  - exists (N.to_nat (n - 1) + S (N.to_nat (limit - 1 - c)))%nat.
    split; [lia|].
    rewrite Nat.iter_add. simpl Nat.iter at 2.
    rewrite (advance_iter_up limit (N.to_nat (limit - 1 - c)) c) by lia.
    rewrite advance_wrap by lia.
    rewrite advance_iter_up; lia.
Qed.

Lemma advance_reaches limit c n :
  limit ≠ 0 → 1 ≤ n → n < limit ∨ n = 1 →
  ∃ d, N.of_nat d ≤ limit ∧ Nat.iter d (advance limit) c = n.
Proof.
  intros Hl H1 Hn. destruct (N.eq_dec limit 1) as [->|Hl1].
  - exists 1%nat. split; [lia|]. simpl. unfold advance.
    rewrite N.mod_1_r. simpl. lia.
  - assert (n < limit) as Hlt by lia.
    destruct (N.lt_ge_cases c limit) as [Hc|Hc].
    + destruct (advance_reaches_in_range limit c n) as (d & ? & ?); try done.
      exists d. split; [lia | done].
    + pose proof (advance_range limit c Hl) as [? ?].
      destruct (advance_reaches_in_range limit (advance limit c) n)
        as (d & ? & ?); try done; [lia|].
      exists (S d). split; [lia|]. now rewrite Nat.iter_succ_r.
Qed.

Lemma open_channels_reaches d n :
  ∀ s, is_Some (channels s !! next_channel s) →
       N.of_nat d ≤ channel_limit s →
       Nat.iter d (advance (channel_limit s)) (next_channel s) = n →
       channels s !! n = None →
       ∃ k, n ∈ fst (open_channels k s).
Proof.
  induction d as [d IH] using lt_wf_ind. intros s Hcur Hd Hiter Hfree.
  destruct (next_channel_number_loop_scan d (S (N.to_nat (channel_limit s)))
              (channel_limit s) 0 s) as (i & Hi & Hfree' & Hrun);
    [lia | lia | by rewrite Hiter |].
  set (r := Nat.iter i (advance (channel_limit s)) (next_channel s)) in *.
  assert (_next_channel_number s = (Return r, set_next_channel r s)) as Hrun'
      by exact Hrun.
  destruct (N.eq_dec r n) as [Hrn|Hrn].
  { exists 1%nat. rewrite (open_channels_return _ _ _ _ Hrun'). simpl.
    rewrite Hrn. apply list_elem_of_here. }
  assert (i ≠ 0)%nat as Hi0.
  { intros ->. simpl in r. subst r. destruct Hcur as [h Hh]. congruence. }
  set (s2 := snd (_set_channel r (channel.fresh r) (set_next_channel r s))).
  destruct (IH (d - i)%nat ltac:(lia) s2) as [k Hk].
  - simpl. rewrite lookup_insert_eq. eauto.
  - change (channel_limit s2) with (channel_limit s). lia.
  - change (channel_limit s2) with (channel_limit s).
    change (next_channel s2) with r. subst r.
    rewrite <- Nat.iter_add. replace (d - i + i)%nat with d by lia. done.
  - simpl. now rewrite lookup_insert_ne.
  - exists (S k). rewrite (open_channels_return _ _ _ _ Hrun'). simpl.
    now apply list_elem_of_further.
Qed.

(** A free number within the scan's range is handed out after finitely
    many allocations. *)
Lemma open_channels_reuses s n :
  1 ≤ n → n < channel_limit s ∨ n = 1 → channels s !! n = None →
  ∃ k, n ∈ fst (open_channels k s).
Proof.
  intros H1 Hn Hfree.
  destruct (channels s !! next_channel s) eqn:E.
  - destruct (advance_reaches (channel_limit s) (next_channel s) n)
      as (d & Hd & Hiter); auto using channel_limit_nonzero.
    eapply open_channels_reaches; eauto.
  - assert (_next_channel_number s = (Return (next_channel s), s)) as Hrun
        by now apply next_channel_number_loop_free.
    destruct (N.eq_dec (next_channel s) n) as [Hcn|Hcn].
    { exists 1%nat. rewrite (open_channels_return _ _ _ _ Hrun). simpl.
      rewrite Hcn. apply list_elem_of_here. }
    set (s2 := snd (_set_channel (next_channel s)
                      (channel.fresh (next_channel s)) s)).
    destruct (advance_reaches (channel_limit s2) (next_channel s2) n)
      as (d & Hd & Hiter); auto using channel_limit_nonzero.
    destruct (open_channels_reaches d n s2) as [k Hk]; auto.
    + simpl. rewrite lookup_insert_eq. eauto.
    + simpl. now rewrite lookup_insert_ne.
    + exists (S k). rewrite (open_channels_return _ _ _ _ Hrun). simpl.
      now apply list_elem_of_further.
Qed.

(** C3, for an allocator that is ready (channel 0 registered while the
    cursor is 0, cursor within the limit): the numbers a run of
    allocations hands out are pairwise distinct, non-zero, at most the
    limit (the negotiated channel-max, or 32767) and were not registered;
    an allocation returns or raises; it raises no-free-channels when
    every number from 1 to the limit is registered; and a deallocated
    number within the scan's range, 1 to limit - 1, is handed out again
    after finitely many allocations. *)
Theorem channel_numbers_allocated (s : Connection) :
  allocator_ready s →
  (∀ k, NoDup (fst (open_channels k s))
        ∧ Forall (λ n, n ≠ 0 ∧ n ≤ channel_limit s ∧ channels s !! n = None)
                 (fst (open_channels k s)))
  ∧ fst (_next_channel_number s) ≠ Diverge
  ∧ ((∀ n, 1 ≤ n ≤ channel_limit s → is_Some (channels s !! n)) →
     fst (_next_channel_number s) = Raise NoFreeChannels)
  ∧ (∀ n, 1 ≤ n → n < channel_limit s ∨ n = 1 →
          ∃ k, n ∈ fst (open_channels k (snd (reset_channel n s)))).
Proof.
  intros Hready. split; [|split; [|split]].
  - intros k. now apply open_channels_fresh.
  - apply next_channel_number_total.
  - intros Hall. destruct Hready as [H0 Hle].
    rewrite next_channel_number_eq.
    apply next_channel_number_loop_exhausted;
      auto using channel_limit_nonzero; try lia.
    destruct (N.eq_dec (next_channel s) 0) as [Hz|Hz].
    + rewrite Hz. auto.
    + apply Hall. lia.
  - intros n H1 Hn. apply open_channels_reuses; [done | |];
      unfold reset_channel; run; destruct (channels s !! n) eqn:E; simpl;
      try done. apply lookup_delete_eq.
Qed.

(** C8: a successful allocation leaves the cursor on the number it
    returns, and the next scan starts at the cursor itself: a number
    that is allocated, registered and deallocated is returned again by
    the very next allocation. *)
Theorem freed_number_is_reused_at_once
        (s s1 : Connection) (n : N) (ch : channel.ChannelHandler) :
  _next_channel_number s = (Return n, s1) →
  next_channel s1 = n
  ∧ let s3 := snd (reset_channel n (snd (_set_channel n ch s1))) in
    _next_channel_number s3 = (Return n, s3).
Proof.
  intros H. apply next_channel_number_return in H as (_ & -> & _).
  split; [done|]. cbv zeta.
  unfold reset_channel, _set_channel. run. rewrite lookup_insert_eq. simpl.
  rewrite next_channel_number_eq.
  rewrite next_channel_number_loop_free; [done|].
  simpl. apply lookup_delete_eq.
Qed.

(** *** The methods stay within the reachable states

    Every method of the connection takes it to a state reachable by the
    steps above, provided the transport hooks and the channel module do:
    the step relation covers the code. *)

Lemma preserves_ret {A} (a : A) : preserves (ret a).
Proof. intros s. apply rtc_refl. Qed.

Lemma preserves_raise {A} (e : exn) : preserves (@raise A e).
Proof. intros s. apply rtc_refl. Qed.

Lemma preserves_self : preserves self.
Proof. intros s. apply rtc_refl. Qed.

Lemma preserves_diverge {A} : preserves (λ s, (@Diverge A, s)).
Proof. intros s. apply rtc_refl. Qed.

Lemma preserves_pure {A} (o : outcome A) : preserves (λ s, (o, s)).
Proof. intros s. apply rtc_refl. Qed.

Lemma preserves_bind {A B} (m : M A) (k : A → M B) :
  preserves m → (∀ a, preserves (k a)) → preserves (bind m k).
Proof.
  intros Hm Hk s. unfold bind. specialize (Hm s).
  destruct (m s) as [[a|e|] s']; simpl in *; [|done|done].
  etrans; [exact Hm | apply Hk].
Qed.

Lemma preserves_step {A} (m : M A) :
  (∀ s, step s (snd (m s))) → preserves m.
Proof. intros H s. apply rtc_once, H. Qed.

Ltac preserve :=
  repeat first
    [ apply preserves_ret | apply preserves_raise | apply preserves_self
    | apply preserves_diverge | apply preserves_pure
    | match goal with H : _ |- _ => apply H end
    | apply preserves_bind; [|intros ?]
    | match goal with
      | |- preserves (match ?x with _ => _ end) => destruct x
      | |- preserves (let '(_, _) := ?x in _) => destruct x
      end ].

Lemma preserves_send_frame frame : preserves (send_frame frame).
Proof. apply preserves_step. intros s. apply step_send_frame. Qed.

Lemma preserves_set_connection_close c :
  preserves (_set_connection_close c).
Proof. apply preserves_step. intros s. apply step_set_connection_close. Qed.

Lemma preserves_next_channel_number : preserves _next_channel_number.
Proof. apply preserves_step. intros s. apply step_next_channel_number. Qed.

Lemma preserves_set_channel n ch : preserves (_set_channel n ch).
Proof. apply preserves_step. intros s. apply step_set_channel. Qed.

Lemma preserves_reset_channel n : preserves (reset_channel n).
Proof. apply preserves_step. intros s. apply step_reset_channel. Qed.

Lemma preserves_erase_credentials : preserves _erase_credentials.
Proof. apply preserves_step. intros s. apply step_erase_credentials. Qed.

Lemma preserves_connection_open b :
  preserves (assign (set_connection_open b)).
Proof. apply preserves_step. intros s. apply step_connection_open. Qed.

Lemma preserves_frame_handler h :
  h ≠ h_login1 → preserves (assign (set_frame_handler h)).
Proof. intros H. apply preserves_step. intros s. now apply step_frame_handler. Qed.

Lemma preserves_handle_write : preserves handle_write.
Proof.
  unfold handle_write. apply preserves_bind; [apply preserves_self|].
  intros s0. apply preserves_step. intros s. apply step_handle_write.
Qed.

Lemma preserves_ensure_channel n : preserves (_ensure_channel n).
Proof. unfold _ensure_channel, _ensure. preserve. Qed.

Lemma preserves_send_body fuel n maxpiece buf :
  preserves (send_body fuel n maxpiece buf).
Proof.
  revert buf. induction fuel as [|fuel IH]; intros [|x buf]; simpl;
    try apply preserves_ret; try apply preserves_diverge.
  apply preserves_bind; [apply preserves_send_frame | intros _; apply IH].
Qed.

Lemma preserves_send_method fuel n method content :
  preserves (send_method fuel n method content).
Proof.
  unfold send_method.
  pose proof preserves_send_frame. pose proof preserves_send_body.
  preserve.
Qed.

Lemma preserves_login1 frame : preserves (_login1 frame).
Proof.
  pose proof preserves_send_method. pose proof preserves_erase_credentials.
  assert (preserves (assign (set_frame_handler h_login2)))
    by now apply preserves_frame_handler.
  unfold _login1, send_method0. destruct frame; preserve.
Qed.

Lemma preserves_ChannelHandler channel_number :
  preserves (ChannelHandler channel_number).
Proof.
  pose proof preserves_next_channel_number. pose proof preserves_set_channel.
  unfold ChannelHandler. preserve.
Qed.

Lemma preserves_install_channel0 : preserves _install_channel0.
Proof.
  unfold _install_channel0.
  apply preserves_bind; [apply preserves_ChannelHandler|]. intros c.
  apply (preserves_set_channel 0).
Qed.

Section Adequacy.

Hypothesis wait_for_reply_preserves :
  ∀ ch replies, preserves (wait_for_reply ch replies).
Hypothesis channel_frame_handler_preserves :
  ∀ ch frame, preserves (channel_frame_handler ch frame).
Hypothesis amqp_connect_preserves :
  ∀ host port, preserves (amqp_connect host port).
Hypothesis drain_events_preserves : preserves drain_events.

Lemma preserves_rpc n method replies : preserves (_rpc n method replies).
Proof.
  pose proof preserves_ensure_channel. pose proof preserves_send_method.
  unfold _rpc, send_method0. preserve.
Qed.

Lemma preserves_close : preserves close.
Proof.
  pose proof preserves_rpc. pose proof preserves_set_connection_close.
  pose proof preserves_connection_open.
  unfold close, shutdown_event_loop. preserve.
Qed.

Lemma preserves_handle_close : preserves handle_close.
Proof.
  pose proof preserves_close. pose proof preserves_set_connection_close.
  unfold handle_close. preserve.
Qed.

Lemma preserves_login2 frame : preserves (_login2 frame).
Proof.
  pose proof preserves_rpc. pose proof preserves_send_method.
  pose proof preserves_install_channel0. pose proof preserves_connection_open.
  assert (preserves (assign (set_frame_handler h_generic_frame_handler)))
    by now apply preserves_frame_handler.
  assert (∀ hosts, preserves (assign (set_known_hosts (Some hosts))))
    by (intros hosts; apply preserves_step; intros s; apply step_known_hosts).
  assert (∀ cm fm, preserves
            (assign (λ s, set_state (codec.tune cm fm (state s)) s)))
    by (intros cm fm; apply preserves_step; intros s; apply step_tune).
  unfold _login2, send_method0, handle_connection_open.
  destruct frame; preserve.
Qed.

Lemma preserves_wait_for_open fuel : preserves (wait_for_open fuel).
Proof.
  induction fuel as [|fuel IH]; simpl; preserve.
Qed.

Lemma preserves_async_connection_close frame :
  preserves (_async_connection_close frame).
Proof.
  pose proof preserves_send_method. pose proof preserves_set_connection_close.
  pose proof preserves_connection_open.
  unfold _async_connection_close, send_method0, handle_connection_close.
  destruct frame; preserve.
Qed.

Lemma preserves_generic_frame_handler frame :
  preserves (_generic_frame_handler frame).
Proof.
  pose proof preserves_send_frame.
  unfold _generic_frame_handler. destruct frame; preserve.
Qed.

Lemma preserves_call_frame_handler h frame :
  preserves (call_frame_handler h frame).
Proof.
  destruct h; simpl;
    auto using preserves_login1, preserves_login2,
               preserves_generic_frame_handler.
Qed.

Lemma preserves_handle_read_loop fuel buf :
  preserves (handle_read_loop fuel buf).
Proof.
  pose proof preserves_call_frame_handler.
  revert buf. induction fuel as [|fuel IH]; intros [|x buf]; simpl; preserve.
Qed.

Lemma preserves_handle_read fuel : preserves (handle_read fuel).
Proof.
  pose proof preserves_handle_read_loop. pose proof preserves_close.
  pose proof preserves_handle_close.
  unfold handle_read. preserve.
Qed.

Lemma init_reachable fuel host port virtual_host credentials parameters wait :
  reachable (new_Connection virtual_host credentials parameters)
    (snd (__init__ fuel host port virtual_host credentials parameters wait)).
Proof.
  pose proof preserves_send_frame. pose proof preserves_wait_for_open.
  unfold __init__.
  assert (preserves
            (amqp_connect host
               match port with
               | Some p => if p =? 0 then PORT else p
               | None => PORT
               end;;;
             send_frame _local_protocol_header;;;
             (if wait then wait_for_open fuel else ret ()))) as Hp
      by (destruct wait; preserve).
  apply Hp.
Qed.

End Adequacy.

(** ** Further properties of the code *)

(** *** [combine_tuning] *)

(** X1: negotiation is associative and idempotent, so the order in which
    several offers are combined does not matter. *)
Theorem combine_tuning_assoc_idemp (a b c : N) :
  combine_tuning a (combine_tuning b c)
  = combine_tuning (combine_tuning a b) c
  ∧ combine_tuning a a = a.
Proof.
  unfold combine_tuning. split.
  - destruct (N.eqb_spec a 0), (N.eqb_spec b 0), (N.eqb_spec c 0);
      cbv iota;
      repeat match goal with
             | |- context [?x =? 0] => destruct (N.eqb_spec x 0); cbv iota
             end; lia.
  - destruct (N.eqb_spec a 0); [done | apply N.min_id].
Qed.

(** X2: the negotiated value is one of the two offers, it is 0 only
    when both offers are 0, and it never exceeds a non-zero offer. *)
Theorem combine_tuning_bounds (a b : N) :
  (combine_tuning a b = a ∨ combine_tuning a b = b)
  ∧ (combine_tuning a b = 0 ↔ a = 0 ∧ b = 0)
  ∧ (a ≠ 0 → combine_tuning a b ≤ a)
  ∧ (b ≠ 0 → combine_tuning a b ≤ b).
Proof.
  unfold combine_tuning.
  destruct (N.eqb_spec a 0), (N.eqb_spec b 0); subst;
    repeat split; try lia; intros; lia.
Qed.

(** *** [send_method] *)

(** X4: a submission whose body is absent or empty needs no room in a
    frame: for every frame-max, 0 included, and with no fuel at all,
    [send_method] returns having appended the method frame and, when
    there are properties, a header frame announcing a body of 0 bytes. *)
Theorem send_method_without_body (fuel : nat) (channel_number : N)
        (method : spec.Method) (content : Content) (s : Connection) :
  truthy_body (content_body_of content) = None →
  send_method fuel channel_number method content s
  = (Return tt,
     set_outbound_buffer
       (outbound_buffer s
        ++ marshal (codec.FrameMethod channel_number method)
        ++ match content_props content with
           | Some props =>
               marshal (codec.FrameHeader channel_number 0 props)
           | None => []
           end) s).
Proof.
  intros H. rewrite send_method_eq. cbv zeta. rewrite H.
  now destruct (content_body_of content) as [[|x body]|].
Qed.

(** X5: when the frame-max equals the frame overhead, a submission with
    a non-empty body never returns: each round of the body loop sends an
    empty piece and consumes nothing. *)
Theorem send_method_no_room (channel_number : N) (method : spec.Method)
        (content : Content) (s : Connection) :
  Z.of_N (codec.frame_max (state s)) = (HEADER_SIZE + FOOTER_SIZE)%Z →
  is_Some (truthy_body (content_body_of content)) →
  ∀ fuel,
    fst (send_method fuel channel_number method content s) = Diverge.
Proof.
  intros Hmax [body Hbody] fuel. rewrite send_method_eq. cbv zeta.
  rewrite Hbody.
  replace (maxpiece_of s) with 0%Z by (unfold maxpiece_of; lia).
  apply send_body_no_progress.
  destruct (content_body_of content) as [[|x b]|]; simpl in Hbody;
    congruence.
Qed.

(** *** [_next_channel_number] *)

Lemma next_channel_number_loop_outcome fuel limit tries s :
  tries ≤ limit → (N.to_nat (limit - tries) < fuel)%nat →
  (∃ n, _next_channel_number_loop fuel limit tries s
        = (Return n, set_next_channel n s)
        ∧ channels s !! n = None)
  ∨ (∃ n, _next_channel_number_loop fuel limit tries s
          = (Raise NoFreeChannels, set_next_channel n s)
          ∧ is_Some (channels s !! next_channel s)).
Proof.
  revert tries s. induction fuel as [|fuel IH]; intros tries s Ht Hf; [lia|].
  destruct (channels s !! next_channel s) eqn:E.
  - rewrite next_channel_number_loop_taken by eauto.
    destruct (N.ltb_spec limit (tries + 1)); [right; eauto|].
    destruct (IH (tries + 1)
                 (set_next_channel (advance limit (next_channel s)) s))
      as [(n & -> & Hn)|(n & -> & Hn)]; [lia | lia | left | right]; eauto.
  - left. exists (next_channel s).
    now rewrite next_channel_number_loop_free, set_next_channel_id.
Qed.

(** X6: whatever the table and the cursor, an allocation either returns
    a number that is not registered, leaving the cursor on it, or raises
    no-free-channels; it never runs for ever, raises nothing else, and
    changes no field but the cursor. *)
Theorem next_channel_number_outcome (s : Connection) :
  (∃ n, _next_channel_number s = (Return n, set_next_channel n s)
        ∧ channels s !! n = None)
  ∨ (∃ n, _next_channel_number s
          = (Raise NoFreeChannels, set_next_channel n s)
          ∧ is_Some (channels s !! next_channel s)).
Proof.
  rewrite next_channel_number_eq.
  apply next_channel_number_loop_outcome; lia.
Qed.

Lemma next_channel_number_loop_first fuel limit tries s n s' :
  _next_channel_number_loop fuel limit tries s = (Return n, s') →
  ∃ i, n = Nat.iter i (advance limit) (next_channel s)
       ∧ ∀ j, (j < i)%nat →
              is_Some (channels s
                         !! Nat.iter j (advance limit) (next_channel s)).
Proof.
  revert tries s. induction fuel as [|fuel IH]; intros tries s H;
    destruct (channels s !! next_channel s) eqn:E.
  - rewrite next_channel_number_loop_stuck in H by eauto. discriminate.
  - rewrite next_channel_number_loop_free in H by done.
    injection H as <- <-. exists 0%nat. split; [done | lia].
  - rewrite next_channel_number_loop_taken in H by eauto.
    destruct (limit <? tries + 1); [discriminate|].
    apply IH in H as (i & Hn & Hbefore). simpl in Hn, Hbefore.
    exists (S i). rewrite Nat.iter_succ_r. split; [done|].
    intros [|j] Hj; [simpl; eauto|].
    rewrite Nat.iter_succ_r. apply Hbefore. lia.
  - rewrite next_channel_number_loop_free in H by done.
    injection H as <- <-. exists 0%nat. split; [done | lia].
Qed.

(** X7: the number an allocation returns is the first unregistered one
    in scan order: it is obtained from the cursor by some number of
    rounds (add one, wrap modulo the limit, replace 0 by 1), and the
    cursor and every number met in the rounds before are registered.  In
    particular a free cursor is returned as it is. *)
Theorem next_channel_number_first_free (s s' : Connection) (n : N) :
  _next_channel_number s = (Return n, s') →
  ∃ i, n = Nat.iter i (advance (channel_limit s)) (next_channel s)
       ∧ ∀ j, (j < i)%nat →
              is_Some (channels s
                         !! Nat.iter j (advance (channel_limit s))
                              (next_channel s)).
Proof.
  rewrite next_channel_number_eq. apply next_channel_number_loop_first.
Qed.

Lemma next_channel_number_loop_full fuel limit tries s :
  limit ≠ 0 → tries ≤ limit → (N.to_nat (limit - tries) < fuel)%nat →
  (∀ n, 1 ≤ n → n < limit ∨ n = 1 → is_Some (channels s !! n)) →
  is_Some (channels s !! next_channel s) →
  fst (_next_channel_number_loop fuel limit tries s) = Raise NoFreeChannels.
Proof.
  intros Hl. revert tries s.
  induction fuel as [|fuel IH]; intros tries s Ht Hf Hall Hcur; [lia|].
  rewrite next_channel_number_loop_taken by done.
  destruct (N.ltb_spec limit (tries + 1)); [done|].
  apply IH; simpl; try lia; try done.
  apply Hall; apply advance_range; done.
Qed.

(** X8: an allocation raises no-free-channels exactly when the cursor
    and every number from 1 to limit - 1 (just 1 when the limit is 1)
    are registered.  The number equal to the limit plays no part: with
    a channel-max of [C ≥ 2] the allocator gives out at most [C - 1]
    numbers. *)
Theorem next_channel_number_raises_iff_full (s : Connection) :
  fst (_next_channel_number s) = Raise NoFreeChannels
  ↔ is_Some (channels s !! next_channel s)
    ∧ ∀ n, 1 ≤ n → n < channel_limit s ∨ n = 1 →
           is_Some (channels s !! n).
Proof.
  pose proof (channel_limit_nonzero s) as Hl. split.
  - intros Hraise. split.
    + destruct (channels s !! next_channel s) eqn:E; [eauto|].
      rewrite next_channel_number_eq, next_channel_number_loop_free
        in Hraise by done. discriminate.
    + intros n H1 Hn. destruct (channels s !! n) eqn:E; [eauto|].
      destruct (advance_reaches (channel_limit s) (next_channel s) n)
        as (d & Hd & Hiter); try done.
      destruct (next_channel_number_loop_scan d
                  (S (N.to_nat (channel_limit s))) (channel_limit s) 0 s)
        as (i & _ & _ & Hrun); [lia | lia | by rewrite Hiter |].
      rewrite next_channel_number_eq, Hrun in Hraise. discriminate.
  - intros [Hcur Hall]. rewrite next_channel_number_eq.
    apply next_channel_number_loop_full; try done; lia.
Qed.

Lemma next_channel_number_loop_cursor fuel limit tries s :
  limit ≠ 0 →
  ∃ n, snd (_next_channel_number_loop fuel limit tries s)
       = set_next_channel n s
       ∧ (n = next_channel s ∨ 1 ≤ n).
Proof.
  intros Hl. revert tries s.
  induction fuel as [|fuel IH]; intros tries s;
    destruct (channels s !! next_channel s) eqn:E.
  - rewrite next_channel_number_loop_stuck by eauto.
    exists (next_channel s). now rewrite set_next_channel_id; auto.
  - rewrite next_channel_number_loop_free by done.
    exists (next_channel s). now rewrite set_next_channel_id; auto.
  - rewrite next_channel_number_loop_taken by eauto.
    pose proof (advance_range limit (next_channel s) Hl) as [? _].
    destruct (limit <? tries + 1); [simpl; eauto|].
    destruct (IH (tries + 1)
                 (set_next_channel (advance limit (next_channel s)) s))
      as (n & -> & Hn).
    exists n. split; [done|]. simpl in Hn. destruct Hn as [->|]; auto.
  - rewrite next_channel_number_loop_free by done.
    exists (next_channel s). now rewrite set_next_channel_id; auto.
Qed.

Lemma step_cursor s s' :
  step s s' → next_channel s ≠ 0 → next_channel s' ≠ 0.
Proof.
  intros Hstep H. destruct Hstep; simpl; auto.
  - destruct (set_connection_close_frame c s) as (_ & table & ->). auto.
  - rewrite next_channel_number_eq.
    destruct (next_channel_number_loop_cursor
                (S (N.to_nat (channel_limit s))) (channel_limit s) 0 s
                (channel_limit_nonzero s)) as (n & -> & Hn).
    simpl. destruct Hn as [->|]; [done | lia].
  - unfold reset_channel. run. now destruct (_ !! _).
Qed.

(** X9: once the cursor has left 0 it never comes back to it, along any
    sequence of state changes of the connection: a wrap to 0 is replaced
    by 1 in the same round. *)
Theorem cursor_never_returns_to_zero (s s' : Connection) :
  reachable s s' → next_channel s ≠ 0 → next_channel s' ≠ 0.
Proof. induction 1; eauto using step_cursor. Qed.

Lemma step_configuration s s' :
  step s s' →
  virtual_host s' = virtual_host s
  ∧ parameters s' = parameters s
  ∧ (frame_handler s ≠ h_login1 → frame_handler s' ≠ h_login1).
Proof.
  intros Hstep. destruct Hstep; simpl; auto.
  - destruct (set_connection_close_frame c s) as (_ & table & ->). auto.
  - destruct (next_channel_number_frame s) as [n ->]. auto.
  - unfold reset_channel. run. now destruct (_ !! _).
Qed.

(** X10: no state change of the connection alters the virtual host or
    the connection parameters, and the frame handler, once it has left
    [_login1], is never [_login1] again. *)
Theorem configuration_is_kept (s s' : Connection) :
  reachable s s' →
  virtual_host s' = virtual_host s
  ∧ parameters s' = parameters s
  ∧ (frame_handler s ≠ h_login1 → frame_handler s' ≠ h_login1).
Proof.
  induction 1 as [|s1 s2 s3 Hstep _ IH]; [auto|].
  apply step_configuration in Hstep as (Hv & Hp & Hh).
  destruct IH as (Hv' & Hp' & Hh').
  split; [congruence|]. split; [congruence | auto].
Qed.

(** *** Channel table *)

(** X11: deallocating a number that is not registered raises nothing
    and changes nothing, and registering a handler under a free number
    and deallocating it again gives back the connection as it was. *)
Theorem register_then_reset (s : Connection) (n : N)
        (ch : channel.ChannelHandler) :
  channels s !! n = None →
  reset_channel n s = (Return tt, s)
  ∧ reset_channel n (snd (_set_channel n ch s)) = (Return tt, s).
Proof.
  intros H. unfold reset_channel, _set_channel. run. rewrite H.
  split; [done|]. rewrite lookup_insert_eq. simpl.
  rewrite delete_insert_id by done.
  transitivity (Return tt, set_channels (channels s) s);
    [reflexivity | now rewrite set_channels_id].
Qed.

(** *** [_rpc], [close], [handle_close] *)

(** X12: the channel check changes nothing, and an RPC whose check
    raises re-raises the same error having sent nothing and changed
    nothing; on a connection without close reason an unregistered
    channel number makes it raise [KeyError]. *)
Theorem rpc_sends_only_after_check (s : Connection) (channel_number : N)
        (method : spec.Method) (acceptable_replies : list spec.MethodClass) :
  snd (_ensure_channel channel_number s) = s
  ∧ (∀ e, fst (_ensure_channel channel_number s) = Raise e →
          _rpc channel_number method acceptable_replies s = (Raise e, s))
  ∧ (connection_close s = None → channels s !! channel_number = None →
     _rpc channel_number method acceptable_replies s
     = (Raise (KeyError channel_number), s)).
Proof.
  unfold _rpc, _ensure_channel, _ensure. run.
  destruct (connection_close s) as [reason|].
  { repeat split; [|done]. now intros e [= <-]. }
  destruct (channels s !! channel_number) as [ch|].
  2:{ repeat split. now intros e [= <-]. }
  destruct (channel.channel_close ch); simpl.
  - repeat split; [|done]. now intros e [= <-].
  - repeat split; done.
Qed.

Lemma close_not_open s :
  connection_open s = false → close s = (Return tt, s).
Proof.
  intros H. unfold close, shutdown_event_loop. run. now rewrite H.
Qed.

Lemma close_closed s reason :
  connection_open s = true → connection_close s = Some reason →
  close s = (Raise (ConnectionClosed reason), set_connection_open false s).
Proof.
  intros Ho Hc. unfold close, _rpc, _ensure_channel, shutdown_event_loop.
  run. rewrite Ho. simpl. now rewrite Hc.
Qed.

Lemma set_connection_close_returns c s :
  _set_connection_close c s
  = (Return tt, snd (_set_connection_close c s)).
Proof.
  destruct (set_connection_close_frame c s) as (H & _).
  now destruct (_set_connection_close c s) as [o s']; simpl in *; subst.
Qed.

Lemma set_connection_close_fields c s :
  let s1 := snd (_set_connection_close c s) in
  connection_close s1 = Some (default c (connection_close s))
  ∧ connection_open s1 = connection_open s
  ∧ outbound_buffer s1 = outbound_buffer s.
Proof.
  destruct (set_connection_close_frame c s) as (_ & table & ->). now simpl.
Qed.

Lemma handle_close_not_open s :
  connection_open s = false →
  handle_close s
  = (Return tt,
     snd (_set_connection_close (spec.Close 0 "Socket closed" 0 0) s)).
Proof.
  intros H. unfold handle_close.
  erewrite bind_return by apply set_connection_close_returns.
  apply close_not_open.
  destruct (set_connection_close_fields (spec.Close 0 "Socket closed" 0 0) s)
    as (_ & -> & _).
  exact H.
Qed.

Lemma handle_close_open s :
  connection_open s = true →
  handle_close s
  = (Raise (ConnectionClosed
              (default (spec.Close 0 "Socket closed" 0 0)
                       (connection_close s))),
     set_connection_open false
       (snd (_set_connection_close (spec.Close 0 "Socket closed" 0 0) s))).
Proof.
  intros H. unfold handle_close.
  erewrite bind_return by apply set_connection_close_returns.
  destruct (set_connection_close_fields (spec.Close 0 "Socket closed" 0 0) s)
    as (Hc & Ho & _).
  apply close_closed; [now rewrite Ho | exact Hc].
Qed.

(** X13: [close] on a connection that is not open returns at once and
    changes nothing, so closing twice is harmless; on an open connection
    that already has a close reason it clears the open flag, sends
    nothing and raises connection-closed with that reason. *)
Theorem close_when_not_open_or_closed (s : Connection) :
  (connection_open s = false → close s = (Return tt, s))
  ∧ (connection_open s = true →
     ∀ reason, connection_close s = Some reason →
       close s = (Raise (ConnectionClosed reason),
                  set_connection_open false s)).
Proof.
  unfold close, _rpc, _ensure_channel, shutdown_event_loop. run. split.
  - now intros ->.
  - intros -> reason H. simpl. now rewrite H.
Qed.

(** X14: [handle_close] records the socket-closed reason unless a reason
    is already there.  On a connection that is not open it then returns;
    on an open one it clears the open flag, sends nothing (no close
    method reaches the outbound buffer) and raises connection-closed
    carrying the reason the connection holds. *)
Theorem handle_close_outcome (s : Connection) :
  let socket_closed := spec.Close 0 "Socket closed" 0 0 in
  let s1 := snd (_set_connection_close socket_closed s) in
  connection_close s1 = Some (default socket_closed (connection_close s))
  ∧ outbound_buffer s1 = outbound_buffer s
  ∧ (connection_open s = false → handle_close s = (Return tt, s1))
  ∧ (connection_open s = true →
     handle_close s
     = (Raise (ConnectionClosed
                 (default socket_closed (connection_close s))),
        set_connection_open false s1)).
Proof.
  intros socket_closed s1. subst s1.
  destruct (set_connection_close_fields socket_closed s) as (Hc & Ho & Hb).
  split; [exact Hc|]. split; [exact Hb|]. split; intros H; unfold handle_close;
    erewrite bind_return by apply set_connection_close_returns.
  - apply close_not_open. now rewrite Ho.
  - apply close_closed; [now rewrite Ho | exact Hc].
Qed.

(** *** [handle_read], [handle_write] *)

(** X15: when the transport raises a socket error, [handle_read] records
    the socket-closed reason (unless one is there).  If the connection
    was not open the socket error is raised again; if it was open,
    [handle_close] raises first and the caller gets connection-closed in
    place of the socket error.  Nothing is sent either way. *)
Theorem handle_read_socket_error (fuel : nat) (s : Connection) :
  let socket_closed := spec.Close 0 "Socket closed" 0 0 in
  let s1 := snd (_set_connection_close socket_closed s) in
  recv (if codec.channel_max (state s) =? 0 then 131072
        else codec.channel_max (state s)) = Raise socket_error →
  (connection_open s = false →
     handle_read fuel s = (Raise socket_error, s1))
  ∧ (connection_open s = true →
     handle_read fuel s
     = (Raise (ConnectionClosed
                 (default socket_closed (connection_close s))),
        set_connection_open false s1)).
Proof.
  intros sc s1 Hrecv.
  unfold handle_read, bind, self. rewrite Hrecv.
  split; intros H.
  - now rewrite (handle_close_not_open s H).
  - now rewrite (handle_close_open s H).
Qed.

(** X16: when the transport returns no bytes, [handle_read] does what
    [close] does and decodes nothing; on a connection that is not open,
    for instance during the handshake, that is nothing at all: no close
    reason is recorded. *)
Theorem handle_read_disconnect (fuel : nat) (s : Connection) :
  recv (if codec.channel_max (state s) =? 0 then 131072
        else codec.channel_max (state s)) = Return [] →
  handle_read fuel s = close s
  ∧ (connection_open s = false → handle_read fuel s = (Return tt, s)).
Proof.
  intros Hrecv.
  assert (handle_read fuel s = close s) as Heq
      by (unfold handle_read, bind, self; now rewrite Hrecv).
  split; [exact Heq|]. intros H. rewrite Heq.
  now apply close_not_open.
Qed.

Lemma handle_read_loop_cons fuel x buf s :
  handle_read_loop (S fuel) (x :: buf) s
  = (let '(consumed_count, frame) := handle_input (state s) (x :: buf) in
     match frame with
     | Some frame =>
         self_ <- self;; call_frame_handler (frame_handler self_) frame
     | None => ret tt
     end;;;
     handle_read_loop fuel (drop (N.to_nat consumed_count) (x :: buf))) s.
Proof. reflexivity. Qed.

(** X17: bytes from which the codec decodes no frame are consumed
    without any effect on the connection: if every decode step yields
    no frame and consumes at least one byte, the dispatch loop returns
    within as many rounds as there are bytes and changes nothing. *)
Theorem handle_read_loop_without_frames (fuel : nat) (buf : bytes)
        (s : Connection) :
  (∀ st b, b ≠ [] →
     snd (handle_input st b) = None ∧ 1 ≤ fst (handle_input st b)) →
  (length buf ≤ fuel)%nat →
  handle_read_loop fuel buf s = (Return tt, s).
Proof.
  intros Hdecode. revert buf.
  induction fuel as [|fuel IH]; intros [|x buf] Hfuel; try done.
  { simpl in Hfuel. lia. }
  rewrite handle_read_loop_cons.
  destruct (Hdecode (state s) (x :: buf)) as [Hnone Hk]; [done|].
  destruct (handle_input (state s) (x :: buf)) as [k frame].
  simpl in Hnone, Hk. subst frame. unfold bind, ret.
  apply IH. rewrite length_drop. simpl length in *. lia.
Qed.

(** X18: the dispatch loop relies on the codec to make progress: if a
    decode step consumes no byte and yields no frame, the loop never
    ends on a non-empty buffer. *)
Theorem handle_read_loop_without_progress (fuel : nat) (buf : bytes)
        (s : Connection) :
  (∀ st b, handle_input st b = (0, None)) →
  buf ≠ [] →
  fst (handle_read_loop fuel buf s) = Diverge.
Proof.
  intros Hdecode Hne. destruct buf as [|x buf]; [done|]. clear Hne.
  induction fuel as [|fuel IH]; [done|].
  rewrite handle_read_loop_cons, Hdecode. unfold bind, ret. exact IH.
Qed.

(** X19: [handle_write] drops from the front of the outbound buffer as
    many bytes as the transport reports sent and keeps the rest in
    order; the connection stays writable exactly when the transport took
    less than the whole buffer. *)
Theorem handle_write_consumes_sent (s : Connection) :
  let r := N.to_nat (send (simplebuffer.read (outbound_buffer s))) in
  let s' := snd (handle_write s) in
  (r ≤ length (outbound_buffer s))%nat →
  fst (handle_write s) = Return tt
  ∧ outbound_buffer s = take r (outbound_buffer s) ++ outbound_buffer s'
  ∧ length (outbound_buffer s') = (length (outbound_buffer s) - r)%nat
  ∧ (writable s' = true ↔ (r < length (outbound_buffer s))%nat).
Proof.
  intros r s' Hr.
  assert (outbound_buffer s' = drop r (outbound_buffer s)) as Hs'.
  { unfold s', r, handle_write, simplebuffer.consume. run.
    f_equal. lia. }
  rewrite Hs'. split; [done|]. split; [now rewrite take_drop|].
  split; [apply length_drop|].
  unfold writable, simplebuffer.len. rewrite Hs', length_drop.
  rewrite negb_true_iff, Z.eqb_neq. lia.
Qed.

(** *** Frame handlers *)

(** X20: a connection-close method from the peer is always answered:
    [_async_connection_close] returns, the open flag is cleared, exactly
    one close-ok method frame on channel 0 is appended to the outbound
    buffer, and the connection holds the peer's method as close reason
    unless it already held one. *)
Theorem async_connection_close_replies (s : Connection) (n : N)
        (method : spec.Method) :
  let s' := snd (_async_connection_close (codec.FrameMethod n method) s) in
  fst (_async_connection_close (codec.FrameMethod n method) s) = Return tt
  ∧ connection_open s' = false
  ∧ connection_close s' = Some (default method (connection_close s))
  ∧ outbound_buffer s'
    = outbound_buffer s ++ marshal (codec.FrameMethod 0 spec.CloseOk).
Proof.
  intros s'. subst s'. unfold _async_connection_close.
  erewrite bind_return by apply set_connection_close_returns.
  destruct (set_connection_close_fields method s) as (Hc & _ & Hb).
  set (s1 := snd (_set_connection_close method s)) in *. clearbody s1.
  unfold send_method0, send_method, send_frame, handle_connection_close.
  run. now rewrite Hc, Hb.
Qed.

(** X21: in steady state a heartbeat frame is echoed into the outbound
    buffer without looking at the channel table, and a method, header or
    body frame for a channel number that is not registered raises
    [KeyError] and changes nothing: it is not dropped silently. *)
Theorem generic_frame_handler_routes (s : Connection) :
  _generic_frame_handler codec.FrameHeartbeat s
  = send_frame codec.FrameHeartbeat s
  ∧ ∀ frame n,
      frame ≠ codec.FrameHeartbeat →
      frame_channel_number frame = Some n →
      channels s !! n = None →
      _generic_frame_handler frame s = (Raise (KeyError n), s).
Proof.
  split; [reflexivity|]. intros frame n Hhb Hn Hfree.
  unfold _generic_frame_handler. run.
  destruct frame; try done; simpl in Hn |- *; injection Hn as ->;
    now rewrite Hfree.
Qed.

(** *** Handshake *)

Lemma login1_plain s ch mechanisms creds :
  credentials s = Some creds →
  existsb (String.eqb "PLAIN") (split mechanisms) = true →
  _login1 (codec.FrameMethod ch (spec.Start mechanisms)) s
  = (Return tt,
     set_frame_handler h_login2
       (set_credentials None
          (set_outbound_buffer
             (outbound_buffer s
              ++ marshal
                   (codec.FrameMethod 0
                      (spec.StartOk
                         [("product", "RabbitMQ Python")]%string "PLAIN"
                         (String zero (username creds)
                          ++ String zero (password creds))%string)))
             s))).
Proof.
  intros Hc Hm.
  unfold _login1, response_for, send_method0, send_method, send_frame,
    _erase_credentials.
  unfold bind, ret, raise, self, assign. rewrite Hc, Hm. reflexivity.
Qed.

(** X22: [_login1] is all or nothing.  Either it raises and leaves the
    connection exactly as it was (nothing sent, credentials kept, frame
    handler unchanged), or the frame is a start method offering PLAIN
    and it returns having appended one start-ok method frame with the
    PLAIN response, erased the credentials and installed [_login2]. *)
Theorem login1_all_or_nothing (frame : codec.Frame) (s : Connection) :
  (∃ e, _login1 frame s = (Raise e, s))
  ∨ (∃ ch mechanisms creds,
       frame = codec.FrameMethod ch (spec.Start mechanisms)
       ∧ credentials s = Some creds
       ∧ existsb (String.eqb "PLAIN") (split mechanisms) = true
       ∧ _login1 frame s
         = (Return tt,
            set_frame_handler h_login2
              (set_credentials None
                 (set_outbound_buffer
                    (outbound_buffer s
                     ++ marshal
                          (codec.FrameMethod 0
                             (spec.StartOk
                                [("product", "RabbitMQ Python")]%string
                                "PLAIN"
                                (String zero (username creds)
                                 ++ String zero (password creds))%string)))
                    s)))).
Proof.
  destruct (credentials s) as [creds|] eqn:Hc.
  2:{ left. destruct frame; unfold _login1, bind, self, raise;
        rewrite ?Hc; eexists; reflexivity. }
  destruct frame as [a b major minor|ch method|ch size props|ch piece|];
    try (left; unfold _login1, bind, self, raise; rewrite ?Hc;
         eexists; reflexivity).
  destruct method;
    try (left; unfold _login1, response_for, bind, self, raise;
         rewrite Hc; eexists; reflexivity).
  destruct (existsb (String.eqb "PLAIN") (split mechanisms)) eqn:Hm.
  - right. exists ch, mechanisms, creds. repeat split; try done.
    now apply login1_plain.
  - left. unfold _login1, response_for, bind, self, raise.
    rewrite Hc, Hm. eexists. reflexivity.
Qed.

Lemma send_method0_eq n method s :
  send_method0 n method s
  = (Return tt,
     set_outbound_buffer
       (outbound_buffer s ++ marshal (codec.FrameMethod n method)) s).
Proof.
  unfold send_method0. rewrite send_method_eq. simpl.
  now rewrite app_nil_r.
Qed.

Lemma install_channel0_eq s :
  _install_channel0 s
  = (Return tt,
     set_channels
       (<[0 := channel.set_async spec.cClose
                 channel._async_connection_close_cb (channel.fresh 0)]>
          (channels s)) s).
Proof.
  unfold _install_channel0, ChannelHandler, _set_channel.
  unfold bind, ret, assign. simpl. now rewrite insert_insert_eq.
Qed.

Lemma rpc_eq n method replies s h :
  connection_close s = None → channels s !! n = Some h →
  channel.channel_close h = None →
  _rpc n method replies s
  = wait_for_reply h replies
      (set_outbound_buffer
         (outbound_buffer s ++ marshal (codec.FrameMethod n method)) s).
Proof.
  intros Hc Hn Hh. unfold _rpc, _ensure_channel, _ensure.
  unfold bind at 1 2. unfold self at 1. rewrite Hc, Hn, Hh.
  unfold ret at 1. unfold bind. now rewrite send_method0_eq.
Qed.

Lemma login2_tune s ch server_channel_max server_frame_max server_heartbeat
      hosts :
  (∀ h replies s0, wait_for_reply h replies s0
                   = (Return (spec.OpenOk hosts), s0)) →
  connection_close s = None →
  let agreed_channel_max :=
    combine_tuning (channel_max (parameters s)) server_channel_max in
  let agreed_frame_max :=
    combine_tuning (frame_max (parameters s)) server_frame_max in
  _login2 (codec.FrameMethod ch
             (spec.Tune server_channel_max server_frame_max
                        server_heartbeat)) s
  = (Return tt,
     set_connection_open true
       (set_known_hosts (Some hosts)
          (set_outbound_buffer
             (outbound_buffer s
              ++ marshal
                   (codec.FrameMethod 0
                      (spec.TuneOk agreed_channel_max agreed_frame_max
                         (combine_tuning (heartbeat (parameters s))
                                         server_heartbeat)))
              ++ marshal
                   (codec.FrameMethod 0
                      (spec.Open (virtual_host s) true)))
             (set_channels
                (<[0 := channel.set_async spec.cClose
                          channel._async_connection_close_cb
                          (channel.fresh 0)]> (channels s))
                (set_frame_handler h_generic_frame_handler
                   (set_state
                      {| codec.channel_max := agreed_channel_max;
                         codec.frame_max := agreed_frame_max |} s)))))).
Proof.
  intros Hreply Hopen. cbv zeta.
  unfold _login2, handle_connection_open. cbv beta iota.
  rewrite (bind_return self _ s s s eq_refl). cbv beta zeta.
  erewrite bind_return by reflexivity.
  erewrite bind_return by apply send_method0_eq.
  erewrite bind_return by reflexivity.
  erewrite bind_return by apply install_channel0_eq.
  erewrite bind_return by reflexivity.
  erewrite bind_return.
  2:{ erewrite rpc_eq; [apply Hreply | exact Hopen | apply lookup_insert_eq
                        | reflexivity]. }
  cbv beta iota.
  erewrite bind_return by reflexivity.
  erewrite bind_return by reflexivity.
  unfold ret. cbn. now rewrite <- app_assoc.
Qed.

(** X23: the second handshake phase, with a peer that answers the open
    call by open-ok and a connection without close reason.  On a tune
    method [_login2] returns, having stored the limits negotiated by
    [combine_tuning], appended a tune-ok frame with those limits and
    then an open frame for the virtual host, installed the generic
    frame handler, registered a new handler for channel 0 (replacing
    any handler registered under 0), recorded the known hosts and set
    the open flag; credentials and cursor are untouched. *)
Theorem login2_opens_connection (s : Connection) (ch : N)
        (server_channel_max server_frame_max server_heartbeat : N)
        (hosts : string) :
  (∀ h replies s0, wait_for_reply h replies s0
                   = (Return (spec.OpenOk hosts), s0)) →
  connection_close s = None →
  let tune := codec.FrameMethod ch
                (spec.Tune server_channel_max server_frame_max
                           server_heartbeat) in
  let agreed_channel_max :=
    combine_tuning (channel_max (parameters s)) server_channel_max in
  let agreed_frame_max :=
    combine_tuning (frame_max (parameters s)) server_frame_max in
  let s' := snd (_login2 tune s) in
  fst (_login2 tune s) = Return tt
  ∧ state s' = {| codec.channel_max := agreed_channel_max;
                  codec.frame_max := agreed_frame_max |}
  ∧ outbound_buffer s'
    = outbound_buffer s
      ++ marshal (codec.FrameMethod 0
                    (spec.TuneOk agreed_channel_max agreed_frame_max
                       (combine_tuning (heartbeat (parameters s))
                                       server_heartbeat)))
      ++ marshal (codec.FrameMethod 0 (spec.Open (virtual_host s) true))
  ∧ frame_handler s' = h_generic_frame_handler
  ∧ channels s'
    = <[0 := channel.set_async spec.cClose
               channel._async_connection_close_cb (channel.fresh 0)]>
        (channels s)
  ∧ connection_open s' = true
  ∧ known_hosts s' = Some hosts
  ∧ credentials s' = credentials s
  ∧ next_channel s' = next_channel s.
Proof.
  intros Hreply Hopen. cbv zeta.
  rewrite (login2_tune s ch _ _ _ hosts Hreply Hopen). cbv zeta.
  repeat split.
Qed.

(** X24: the whole handshake, with a transport whose [amqp_connect]
    returns without touching the connection and a peer that answers
    every wait for a reply with open-ok while the connection stays as it
    is.  On a connection that [__init__] has constructed without
    waiting, dispatching a start method that offers PLAIN and then a
    tune method through the stored frame handler runs [_login1] and then
    [_login2]: both return, the outbound buffer holds the protocol
    header, start-ok, tune-ok and open frames in that order, the
    credentials are erased, channel 0 is the only registered channel,
    and the connection is open with the generic frame handler. *)
Theorem handshake_opens_connection
        (fuel : nat) (host : string) (port : option N)
        (virtual_host : string) (creds : option PlainCredentials)
        (params : option ConnectionParameters)
        (mechanisms hosts : string)
        (server_channel_max server_frame_max server_heartbeat : N) :
  (∀ h p s0, amqp_connect h p s0 = (Return tt, s0)) →
  (∀ h replies s0, wait_for_reply h replies s0
                   = (Return (spec.OpenOk hosts), s0)) →
  existsb (String.eqb "PLAIN") (split mechanisms) = true →
  let user := default {| username := "guest"; password := "guest" |} creds in
  let local :=
    default {| channel_max := 0; frame_max := 131072; heartbeat := 0 |}
            params in
  let agreed_channel_max :=
    combine_tuning (channel_max local) server_channel_max in
  let agreed_frame_max := combine_tuning (frame_max local) server_frame_max in
  let s0 := snd (__init__ fuel host port virtual_host creds params false) in
  let r1 := call_frame_handler (frame_handler s0)
              (codec.FrameMethod 0 (spec.Start mechanisms)) s0 in
  let r2 := call_frame_handler (frame_handler (snd r1))
              (codec.FrameMethod 0
                 (spec.Tune server_channel_max server_frame_max
                            server_heartbeat)) (snd r1) in
  fst r1 = Return tt
  ∧ fst r2 = Return tt
  ∧ outbound_buffer (snd r2)
    = marshal _local_protocol_header
      ++ marshal (codec.FrameMethod 0
                    (spec.StartOk [("product", "RabbitMQ Python")]%string
                       "PLAIN"
                       (String zero (username user)
                        ++ String zero (password user))%string))
      ++ marshal (codec.FrameMethod 0
                    (spec.TuneOk agreed_channel_max agreed_frame_max
                       (combine_tuning (heartbeat local) server_heartbeat)))
      ++ marshal (codec.FrameMethod 0 (spec.Open virtual_host true))
  ∧ credentials (snd r2) = None
  ∧ state (snd r2) = {| codec.channel_max := agreed_channel_max;
                        codec.frame_max := agreed_frame_max |}
  ∧ channels (snd r2)
    = {[ 0 := channel.set_async spec.cClose
                channel._async_connection_close_cb (channel.fresh 0) ]}
  ∧ connection_open (snd r2) = true
  ∧ frame_handler (snd r2) = h_generic_frame_handler.
Proof.
  intros Hconnect Hreply Hplain. cbv zeta.
  set (s0 := snd (__init__ fuel host port virtual_host creds params false)).
  assert (s0 = set_outbound_buffer (marshal _local_protocol_header)
                 (new_Connection virtual_host creds params)) as Hs0.
  { unfold s0, __init__, send_frame. unfold bind, ret, assign.
    now rewrite Hconnect. }
  assert (frame_handler s0 = h_login1) as Hh0 by now rewrite Hs0.
  rewrite Hh0. cbn [call_frame_handler].
  rewrite (login1_plain s0 0 mechanisms
             (default {| username := "guest"; password := "guest" |} creds))
    by (try done; now rewrite Hs0).
  cbn [fst snd frame_handler set_frame_handler call_frame_handler].
  rewrite (login2_tune _ 0 server_channel_max server_frame_max
             server_heartbeat hosts Hreply) by now rewrite Hs0.
  cbv zeta. rewrite Hs0. cbn. rewrite <- !app_assoc, insert_empty.
  repeat split.
Qed.

(** X25: [wait_for_open] returns at once, without draining events, when
    the connection is open or has a close reason; otherwise it keeps
    draining, and if draining events changes nothing it never returns. *)
Theorem wait_for_open_waits (fuel : nat) (s : Connection) :
  (connection_open s = true ∨ is_Some (connection_close s) →
   wait_for_open fuel s = (Return tt, s))
  ∧ ((∀ s0, drain_events s0 = (Return tt, s0)) →
     connection_open s = false → connection_close s = None →
     fst (wait_for_open fuel s) = Diverge).
Proof.
  split.
  - intros H. destruct fuel; simpl; unfold bind, self, ret;
      destruct H as [->|[r ->]]; simpl; try done;
      now destruct (connection_open s).
  - intros Hdrain Hopen Hclose.
    induction fuel as [|fuel IH]; simpl; unfold bind, self, ret in *;
      rewrite Hopen, Hclose; simpl; [done|].
    now rewrite Hdrain.
Qed.

(** *** [PlainCredentials.response_for] *)

Lemma string_app_cons x (a b : string) :
  (String x a ++ b = String x (a ++ b))%string.
Proof. reflexivity. Qed.

Lemma string_app_assoc (a b c : string) :
  ((a ++ b) ++ c = a ++ (b ++ c))%string.
Proof.
  induction a as [|x a IH]; [done|]. now rewrite !string_app_cons, IH.
Qed.

Lemma string_app_nil_r (a : string) : (a ++ "" = a)%string.
Proof.
  induction a as [|x a IH]; [done|]. now rewrite string_app_cons, IH.
Qed.

Lemma split_from_word w acc rest :
  Forall (λ a, isspace a = false) (list_ascii_of_string w) →
  split_from acc (w ++ rest) = split_from (acc ++ w) rest.
Proof.
  revert acc. induction w as [|x w IH]; intros acc Hw.
  - change ("" ++ rest)%string with rest. now rewrite string_app_nil_r.
  - simpl in Hw. apply Forall_cons_1 in Hw as [Hx Hw].
    rewrite string_app_cons. simpl split_from. rewrite Hx.
    rewrite IH by done. rewrite string_app_assoc.
    now rewrite string_app_cons.
Qed.

Lemma split_concat (ws : list string) :
  Forall word ws → split (String.concat " " ws) = ws.
Proof.
  unfold split. induction ws as [|w ws IH]; intros Hws; [done|].
  apply Forall_cons_1 in Hws as [[Hne Hw] Hws].
  destruct ws as [|w' ws].
  - simpl. rewrite <- (string_app_nil_r w) at 1.
    rewrite split_from_word by done. simpl. now destruct w.
  - change (String.concat " " (w :: w' :: ws))
      with (w ++ String " " (String.concat " " (w' :: ws)))%string.
    rewrite split_from_word by done.
    change (split_from ("" ++ w) (String " " (String.concat " " (w' :: ws))))
      with (match w with
            | EmptyString => split_from "" (String.concat " " (w' :: ws))
            | _ => w :: split_from "" (String.concat " " (w' :: ws))
            end).
    rewrite IH by done. now destruct w.
Qed.

Lemma existsb_eqb_elem_of (w : string) (ws : list string) :
  existsb (String.eqb w) ws = true ↔ w ∈ ws.
Proof.
  rewrite existsb_exists, list_elem_of_In. split.
  - intros (x & Hx & Heq). apply String.eqb_eq in Heq. now subst.
  - intros Hin. exists w. split; [done | apply String.eqb_refl].
Qed.

(** X26: for a start method whose mechanisms are names separated by
    single spaces, the credentials answer exactly when PLAIN is one of
    the names, wherever it stands in the list; the answer is the
    mechanism PLAIN with the response NUL, user name, NUL, password.  A
    name that merely contains PLAIN does not count. *)
Theorem response_for_plain (self_ : PlainCredentials) (ws : list string) :
  Forall word ws →
  ("PLAIN"%string ∈ ws →
   response_for self_ (spec.Start (String.concat " " ws))
   = Return (Some ("PLAIN",
                   String zero (username self_)
                     ++ String zero (password self_)))%string)
  ∧ ("PLAIN"%string ∉ ws →
     response_for self_ (spec.Start (String.concat " " ws)) = Return None).
Proof.
  intros Hws. unfold response_for. rewrite split_concat by done.
  split; intros H.
  - apply existsb_eqb_elem_of in H. now rewrite H.
  - destruct (existsb (String.eqb "PLAIN") ws) eqn:E; [|done].
    apply existsb_eqb_elem_of in E. done.
Qed.

(** *** [close] on an open connection *)

Lemma close_open s h :
  connection_open s = true → connection_close s = None →
  channels s !! 0 = Some h → channel.channel_close h = None →
  let c := spec.Close 200 "Normal shutdown" 0 0 in
  close s
  = (reply <- wait_for_reply h [spec.cCloseOk];;
     _set_connection_close c;;;
     shutdown_event_loop)
      (set_outbound_buffer
         (outbound_buffer s ++ marshal (codec.FrameMethod 0 c))
         (set_connection_open false s)).
Proof.
  intros Hopen Hclose Hh Hhc. cbv zeta. unfold close.
  rewrite (bind_return self _ s s s eq_refl). rewrite Hopen.
  unfold bind at 1 2. unfold assign at 1.
  unfold bind at 1.
  rewrite (rpc_eq 0 _ _ (set_connection_open false s) h) by done.
  unfold bind. simpl.
  destruct (wait_for_reply h [spec.cCloseOk] _) as [[r|e|] s']; reflexivity.
Qed.

(** X27: local close of an open connection whose channel 0 is
    registered, when the wait for the close-ok on channel 0 returns and
    leaves the connection as it found it.  [close] clears the open flag,
    appends one close method frame (code 200, "Normal shutdown", class
    and method 0) on channel 0, waits, and then records that same method
    with [_set_connection_close]: the connection holds it as close
    reason, every handler left in the table was there before and now
    has a close reason, and every channel that had no close reason has
    deallocated its number. *)
Theorem close_normal_shutdown (s : Connection) (h : channel.ChannelHandler)
        (reply : spec.Method) :
  let c := spec.Close 200 "Normal shutdown" 0 0 in
  let s1 := set_outbound_buffer
              (outbound_buffer s ++ marshal (codec.FrameMethod 0 c))
              (set_connection_open false s) in
  wait_for_reply h [spec.cCloseOk] s1 = (Return reply, s1) →
  connection_open s = true → connection_close s = None →
  channels s !! 0 = Some h → channel.channel_close h = None →
  let s' := snd (close s) in
  close s = (Return tt, snd (_set_connection_close c s1))
  ∧ connection_open s' = false
  ∧ connection_close s' = Some c
  ∧ outbound_buffer s'
    = outbound_buffer s ++ marshal (codec.FrameMethod 0 c)
  ∧ (∀ n ch', channels s' !! n = Some ch' →
       ∃ ch, channels s !! n = Some ch
             ∧ channel.channel_close ch'
               = Some (default c (channel.channel_close ch)))
  ∧ (∀ n ch, channels s !! n = Some ch →
       channel.channel_close ch = None →
       channels s' !! channel.channel_number ch = None).
Proof.
  intros c s1 Hreply Hopen Hclose Hh Hhc. cbv zeta.
  assert (close s = (Return tt, snd (_set_connection_close c s1))) as ->.
  { rewrite (close_open s h) by done. cbv zeta. fold c s1.
    erewrite bind_return by exact Hreply.
    erewrite bind_return by apply set_connection_close_returns.
    reflexivity. }
  split; [done|]. cbn [snd].
  rewrite (set_connection_close_first s1 c) by exact Hclose. simpl.
  split; [done|]. split; [done|]. split; [done|]. split.
  - intros n ch' H.
    apply (cascaded_items_Some c s1) in H as (ch & Hn & ->).
    exists ch. split; [exact Hn|]. unfold closed_with.
    destruct (channel.channel_close ch) eqn:E; simpl; now rewrite ?E.
  - intros n ch. apply (cascaded_items_None c s1).
Qed.

(** X28: local close of an open connection whose channel 0 is
    registered, when the wait for the close-ok on channel 0 raises.
    [close] clears the open flag and queues the close method frame
    before the wait, raises the error of the wait and leaves the
    connection exactly as the failing wait left it: [close] itself
    records no close reason.  If the failing wait did not touch the
    connection, it is therefore left neither open nor closed, and
    closing again returns at once without recording a reason. *)
Theorem close_with_failing_rpc (s s2 : Connection)
        (h : channel.ChannelHandler) (e : exn) :
  let c := spec.Close 200 "Normal shutdown" 0 0 in
  let s1 := set_outbound_buffer
              (outbound_buffer s ++ marshal (codec.FrameMethod 0 c))
              (set_connection_open false s) in
  wait_for_reply h [spec.cCloseOk] s1 = (Raise e, s2) →
  connection_open s = true → connection_close s = None →
  channels s !! 0 = Some h → channel.channel_close h = None →
  close s = (Raise e, s2)
  ∧ (s2 = s1 →
     let s' := snd (close s) in
     connection_open s' = false
     ∧ connection_close s' = None
     ∧ outbound_buffer s'
       = outbound_buffer s ++ marshal (codec.FrameMethod 0 c)
     ∧ close s' = (Return tt, s')).
Proof.
  intros c s1 Hreply Hopen Hclose Hh Hhc.
  assert (close s = (Raise e, s2)) as ->.
  { rewrite (close_open s h) by done. cbv zeta. fold c s1.
    unfold bind at 1. now rewrite Hreply. }
  split; [done|]. intros ->. cbn [snd].
  split; [done|]. split; [done|]. split; [done|].
  now apply close_not_open.
Qed.

End Connection.

(** *** Read entry point *)

(** C10: [handle_read] asks the transport for [channel_max] bytes, and
    for 131072 bytes only when [channel_max] is 0 or unset: the call is
    decided by the transport's answer to a request of that size and of no
    other size.  Once tuning has set a non-zero channel-max, that is the
    size requested, whatever the frame-max. *)
Theorem handle_read_requests_channel_max
        (marshal : codec.Frame → bytes) (HEADER_SIZE FOOTER_SIZE : Z)
        (handle_input : codec.ConnectionState → bytes → N * option codec.Frame)
        (wait_for_reply :
           channel.ChannelHandler → list spec.MethodClass → M spec.Method)
        (channel_frame_handler : channel.ChannelHandler → codec.Frame → M ())
        (recv : N → outcome bytes) (fuel : nat) (s : Connection) :
  let read recv :=
    handle_read marshal HEADER_SIZE FOOTER_SIZE handle_input recv
                wait_for_reply channel_frame_handler fuel in
  let b := if codec.channel_max (state s) =? 0 then 131072
           else codec.channel_max (state s) in
  (∀ recv', recv' b = recv b → read recv' s = read recv s)
  ∧ (∀ e, e ≠ socket_error → recv b = Raise e → read recv s = (Raise e, s))
  ∧ (codec.channel_max (state s) ≠ 0 → b = codec.channel_max (state s))
  ∧ (codec.channel_max (state s) = 0 → b = 131072)
  ∧ (∀ C frame_max, C ≠ 0 →
       let s' := set_state (codec.tune C frame_max (state s)) s in
       (∀ recv', recv' C = recv C → read recv' s' = read recv s')
       ∧ (∀ e, e ≠ socket_error → recv C = Raise e →
            read recv s' = (Raise e, s'))).
Proof.
  assert (∀ s recv',
             let b := if codec.channel_max (state s) =? 0 then 131072
                      else codec.channel_max (state s) in
             recv' b = recv b →
             handle_read marshal HEADER_SIZE FOOTER_SIZE handle_input recv'
               wait_for_reply channel_frame_handler fuel s
             = handle_read marshal HEADER_SIZE FOOTER_SIZE handle_input recv
                 wait_for_reply channel_frame_handler fuel s) as Hsame.
  { intros s0 recv' b H. unfold handle_read, bind, self. fold b.
    now rewrite H. }
  assert (∀ s e,
             let b := if codec.channel_max (state s) =? 0 then 131072
                      else codec.channel_max (state s) in
             e ≠ socket_error → recv b = Raise e →
             handle_read marshal HEADER_SIZE FOOTER_SIZE handle_input recv
               wait_for_reply channel_frame_handler fuel s
             = (Raise e, s)) as Hraise.
  { intros s0 e b He H. unfold handle_read, bind, self. fold b.
    rewrite H. now destruct e. }
  cbv zeta. split; [|split; [|split; [|split]]].
  - apply Hsame.
  - apply Hraise.
  - intros H. apply N.eqb_neq in H. now rewrite H.
  - intros ->. reflexivity.
  - intros C fm HC. split.
    + intros recv' H. apply Hsame. simpl.
      apply N.eqb_neq in HC. now rewrite HC.
    + intros e He H. apply Hraise; [done|]. simpl.
      apply N.eqb_neq in HC. now rewrite HC.
Qed.

(** ** Concrete runs *)

Example example_fragments :
  send_method example_marshal 7 1 5 1 (spec.Other 60 40)
    (content_tuple (Some (spec.Properties []))
                   (Some [x61; x62; x63; x64; x65]))
    (example_tuned 0 10)
  = (Return tt,
     set_outbound_buffer
       (outbound_buffer (example_tuned 0 10)
        ++ [x01; x02; x05;
            x03; x61; x62; x03; x63; x64; x03; x65])
       (example_tuned 0 10)).
Proof. reflexivity. Qed.

Example example_allocations :
  fst (open_channels 5 (example_tuned 4 4096)) = [1; 2; 3].
Proof. reflexivity. Qed.

Example example_exhausted :
  fst (_next_channel_number (snd (open_channels 3 (example_tuned 4 4096))))
  = Raise NoFreeChannels.
Proof. reflexivity. Qed.

Example example_login1 :
  let s' := snd (_login1 example_marshal 7 1
                   (codec.FrameMethod 0 (spec.Start "AMQPLAIN PLAIN"))
                   (new_Connection "/" None None)) in
  credentials s' = None ∧ frame_handler s' = h_login2
  ∧ outbound_buffer s' = [x01].
Proof. repeat split. Qed.

(** C2 at the limits of the specification's example. *)
Lemma combine_tuning_negotiates_witness :
  combine_tuning 65535 131072 = N.min 65535 131072.
Proof.
  apply (combine_tuning_negotiates 65535 131072); discriminate.
Defined.

Lemma send_method_frames_witness :
  send_method_fragments example_marshal 7 1 (example_tuned 0 10) 1
    (spec.Other 60 40)
    (content_tuple (Some (spec.Properties []))
                   (Some [x61; x62; x63; x64; x65])).
Proof.
  apply (send_method_frames example_marshal 7 1 (example_tuned 0 10)).
  reflexivity.
Defined.

(** C3 fails on a connection that has not registered channel 0 yet: the
    first allocation returns 0. *)
Lemma fresh_connection_allocates_zero :
  ¬ allocations_nonzero (new_Connection "/" None None).
Proof.
  intros H. specialize (H 1%nat). apply Forall_cons_1 in H as [H _].
  now apply H.
Qed.

Lemma channel_numbers_allocated_witness :
  NoDup (fst (open_channels 5 (example_tuned 4 4096))).
Proof.
  apply (channel_numbers_allocated (example_tuned 4 4096)).
  split; [intros _; eexists; reflexivity | discriminate].
Defined.


Lemma rpc_on_closed_connection_witness :
  _rpc example_marshal 7 1 (λ _ _, ret spec.CloseOk) 1 (spec.Other 60 40) []
       example_closed
  = (Raise (ConnectionClosed (spec.Close 0 "Socket closed" 0 0)),
     example_closed).
Proof.
  apply (rpc_on_closed_connection example_marshal 7 1
           (λ _ _, ret spec.CloseOk) example_closed
           (spec.Close 0 "Socket closed" 0 0) 1 (spec.Other 60 40) []).
  reflexivity.
Defined.

(** C7 fails: a channel registered on a closed connection has no close
    reason. *)
Lemma late_registration_without_reason :
  ¬ registration_assigns_reason example_closed 1 (channel.fresh 1).
Proof.
  intros H. destruct H as (ch' & Hl & Hr); [by eexists|].
  simpl in Hl. rewrite lookup_insert_eq in Hl. injection Hl as <-.
  now destruct Hr.
Qed.

Lemma set_channel_keeps_handler_witness :
  _ensure_channel 1 (snd (_set_channel 1 (channel.fresh 1) example_closed))
  = (Raise (ConnectionClosed (spec.Close 0 "Socket closed" 0 0)),
     snd (_set_channel 1 (channel.fresh 1) example_closed)).
Proof.
  apply (set_channel_keeps_handler example_closed 1 (channel.fresh 1)).
  reflexivity.
Defined.

(** C8 fails: channel 1 is handed out again at once although 2 is
    free. *)
Lemma freed_number_reused :
  ¬ no_immediate_reuse (example_tuned 4 4096).
Proof.
  intros H.
  apply (H 1 (set_next_channel 1 (example_tuned 4 4096)) (channel.fresh 1) 1
           (set_next_channel 1 (example_tuned 4 4096)));
    [reflexivity | | reflexivity | reflexivity].
  exists 2. repeat split; try done.
Qed.

Lemma freed_number_is_reused_at_once_witness :
  let s3 := snd (reset_channel 1
                   (snd (_set_channel 1 (channel.fresh 1)
                           (set_next_channel 1 (example_tuned 4 4096))))) in
  _next_channel_number s3 = (Return 1, s3).
Proof.
  apply (freed_number_is_reused_at_once (example_tuned 4 4096)
           (set_next_channel 1 (example_tuned 4 4096)) 1 (channel.fresh 1)).
  reflexivity.
Defined.

Lemma credentials_erased_after_login1_witness :
  credentials
    (snd (_login1 example_marshal 7 1
            (codec.FrameMethod 0 (spec.Start "AMQPLAIN PLAIN"))
            (new_Connection "/" None None)))
  = None.
Proof.
  apply (credentials_erased_after_login1 example_marshal 7 1
           (codec.FrameMethod 0 (spec.Start "AMQPLAIN PLAIN"))
           (new_Connection "/" None None)).
  reflexivity.
Defined.

Lemma handle_read_requests_channel_max_witness :
  handle_read example_marshal 7 1 (λ _ _, (0, None))
    (λ n, Raise (KeyError n)) (λ _ _, ret spec.CloseOk) (λ _ _, ret tt) 0
    (example_tuned 4 4096)
  = (Raise (KeyError 4), example_tuned 4 4096).
Proof.
  destruct (handle_read_requests_channel_max example_marshal 7 1
              (λ _ _, (0, None)) (λ _ _, ret spec.CloseOk) (λ _ _, ret tt)
              (λ n, Raise (KeyError n)) 0 (example_tuned 4 4096))
    as (_ & H & _).
  apply H; [discriminate | reflexivity].
Defined.

(** ** Concrete runs of the further properties *)

Lemma combine_tuning_bounds_witness :
  combine_tuning 65535 131072 ≤ 65535.
Proof.
  destruct (combine_tuning_bounds 65535 131072) as (_ & _ & H & _).
  apply H. discriminate.
Defined.

Lemma send_method_without_body_witness :
  send_method example_marshal 7 1 0 1 (spec.Other 60 40)
    (content_tuple (Some (spec.Properties [])) (Some []))
    (new_Connection "/" None None)
  = (Return tt,
     set_outbound_buffer [x01; x02; x00] (new_Connection "/" None None)).
Proof.
  rewrite (send_method_without_body example_marshal 7 1 0 1
             (spec.Other 60 40)
             (content_tuple (Some (spec.Properties [])) (Some []))
             (new_Connection "/" None None) eq_refl).
  reflexivity.
Defined.

Lemma send_method_no_room_witness :
  fst (send_method example_marshal 7 1 100 1 (spec.Other 60 40)
         (content_body [x61]) (example_tuned 0 8))
  = Diverge.
Proof.
  apply (send_method_no_room example_marshal 7 1 1 (spec.Other 60 40)
           (content_body [x61]) (example_tuned 0 8)).
  - reflexivity.
  - eexists. reflexivity.
Defined.

Lemma next_channel_number_first_free_witness :
  ∃ i, 1 = Nat.iter i (advance (channel_limit (example_tuned 4 4096)))
             (next_channel (example_tuned 4 4096))
       ∧ ∀ j, (j < i)%nat →
              is_Some (channels (example_tuned 4 4096)
                         !! Nat.iter j
                              (advance (channel_limit (example_tuned 4 4096)))
                              (next_channel (example_tuned 4 4096))).
Proof.
  apply (next_channel_number_first_free (example_tuned 4 4096)
           (set_next_channel 1 (example_tuned 4 4096)) 1).
  reflexivity.
Defined.

Lemma next_channel_number_raises_iff_full_witness :
  let s := snd (open_channels 3 (example_tuned 4 4096)) in
  is_Some (channels s !! next_channel s)
  ∧ ∀ n, 1 ≤ n → n < channel_limit s ∨ n = 1 → is_Some (channels s !! n).
Proof.
  apply (next_channel_number_raises_iff_full
           (snd (open_channels 3 (example_tuned 4 4096)))).
  reflexivity.
Defined.

Lemma cursor_never_returns_to_zero_witness :
  next_channel
    (snd (_next_channel_number (snd (open_channels 3 (example_tuned 4 4096)))))
  ≠ 0.
Proof.
  apply (cursor_never_returns_to_zero
           (snd (open_channels 3 (example_tuned 4 4096)))).
  - apply rtc_once, step_next_channel_number.
  - vm_compute. discriminate.
Defined.

Lemma configuration_is_kept_witness :
  let s := example_tuned 4 4096 in
  let s' := snd (_set_connection_close (spec.Close 0 "Socket closed" 0 0) s) in
  virtual_host s' = virtual_host s
  ∧ parameters s' = parameters s
  ∧ (frame_handler s ≠ h_login1 → frame_handler s' ≠ h_login1).
Proof.
  apply (configuration_is_kept (example_tuned 4 4096)).
  apply rtc_once, step_set_connection_close.
Defined.

Lemma register_then_reset_witness :
  reset_channel 5
    (snd (_set_channel 5 (channel.fresh 5) (example_tuned 4 4096)))
  = (Return tt, example_tuned 4 4096).
Proof.
  apply (register_then_reset (example_tuned 4 4096) 5 (channel.fresh 5)).
  reflexivity.
Defined.

Lemma rpc_sends_only_after_check_witness :
  _rpc example_marshal 7 1 (λ _ _, ret spec.CloseOk) 7 (spec.Other 60 40) []
       (example_tuned 4 4096)
  = (Raise (KeyError 7), example_tuned 4 4096).
Proof.
  destruct (rpc_sends_only_after_check example_marshal 7 1
              (λ _ _, ret spec.CloseOk) (example_tuned 4 4096) 7
              (spec.Other 60 40) []) as (_ & _ & H).
  apply H; reflexivity.
Defined.

Lemma close_when_not_open_or_closed_witness :
  close example_marshal 7 1 (λ _ _, ret spec.CloseOk) example_closed
  = (Return tt, example_closed).
Proof.
  destruct (close_when_not_open_or_closed example_marshal 7 1
              (λ _ _, ret spec.CloseOk) example_closed) as (H & _).
  apply H. reflexivity.
Defined.

Lemma handle_close_outcome_witness :
  handle_close example_marshal 7 1 (λ _ _, ret spec.CloseOk)
    (example_tuned 4 4096)
  = (Raise (ConnectionClosed (spec.Close 0 "Socket closed" 0 0)),
     set_connection_open false
       (snd (_set_connection_close (spec.Close 0 "Socket closed" 0 0)
               (example_tuned 4 4096)))).
Proof.
  destruct (handle_close_outcome example_marshal 7 1
              (λ _ _, ret spec.CloseOk) (example_tuned 4 4096))
    as (_ & _ & _ & H).
  apply H. reflexivity.
Defined.

Lemma handle_read_socket_error_witness :
  handle_read example_marshal 7 1 (λ _ _, (0, None))
    (λ _, Raise socket_error) (λ _ _, ret spec.CloseOk) (λ _ _, ret tt) 0
    (example_tuned 4 4096)
  = (Raise (ConnectionClosed (spec.Close 0 "Socket closed" 0 0)),
     set_connection_open false
       (snd (_set_connection_close (spec.Close 0 "Socket closed" 0 0)
               (example_tuned 4 4096)))).
Proof.
  destruct (handle_read_socket_error example_marshal 7 1 (λ _ _, (0, None))
              (λ _, Raise socket_error) (λ _ _, ret spec.CloseOk)
              (λ _ _, ret tt) 0 (example_tuned 4 4096) eq_refl) as (_ & H).
  apply H. reflexivity.
Defined.

Lemma handle_read_disconnect_witness :
  handle_read example_marshal 7 1 (λ _ _, (0, None))
    (λ _, Return []) (λ _ _, ret spec.CloseOk) (λ _ _, ret tt) 0
    (new_Connection "/" None None)
  = (Return tt, new_Connection "/" None None).
Proof.
  destruct (handle_read_disconnect example_marshal 7 1 (λ _ _, (0, None))
              (λ _, Return []) (λ _ _, ret spec.CloseOk)
              (λ _ _, ret tt) 0 (new_Connection "/" None None) eq_refl)
    as (_ & H).
  apply H. reflexivity.
Defined.

Lemma handle_read_loop_without_frames_witness :
  handle_read_loop example_marshal 7 1
    (λ _ b, (N.of_nat (length b), None))
    (λ _ _, ret spec.CloseOk) (λ _ _, ret tt) 3 [x01; x02; x03]
    (example_tuned 4 4096)
  = (Return tt, example_tuned 4 4096).
Proof.
  apply (handle_read_loop_without_frames example_marshal 7 1
           (λ _ b, (N.of_nat (length b), None))
           (λ _ _, ret spec.CloseOk) (λ _ _, ret tt) 3 [x01; x02; x03]
           (example_tuned 4 4096)).
  - intros st [|x b] Hb; [done|]. split; [reflexivity | simpl; lia].
  - simpl. lia.
Defined.

Lemma handle_read_loop_without_progress_witness :
  fst (handle_read_loop example_marshal 7 1 (λ _ _, (0, None))
         (λ _ _, ret spec.CloseOk) (λ _ _, ret tt) 10 [x01]
         (example_tuned 4 4096))
  = Diverge.
Proof.
  apply (handle_read_loop_without_progress example_marshal 7 1
           (λ _ _, (0, None)) (λ _ _, ret spec.CloseOk) (λ _ _, ret tt)
           10 [x01] (example_tuned 4 4096)).
  - reflexivity.
  - discriminate.
Defined.

Lemma handle_write_consumes_sent_witness :
  length
    (outbound_buffer
       (snd (handle_write (λ _, 2)
               (set_outbound_buffer [x01; x02; x03] (example_tuned 4 4096)))))
  = 1%nat.
Proof.
  destruct (handle_write_consumes_sent (λ _, 2)
              (set_outbound_buffer [x01; x02; x03] (example_tuned 4 4096)))
    as (_ & _ & H & _).
  - simpl. lia.
  - exact H.
Defined.

Lemma generic_frame_handler_routes_witness :
  _generic_frame_handler example_marshal (λ _ _, ret tt)
    (codec.FrameBody 9 []) (example_tuned 4 4096)
  = (Raise (KeyError 9), example_tuned 4 4096).
Proof.
  destruct (generic_frame_handler_routes example_marshal (λ _ _, ret tt)
              (example_tuned 4 4096)) as (_ & H).
  apply H; [discriminate | reflexivity | reflexivity].
Defined.

Lemma login2_opens_connection_witness :
  connection_open
    (snd (_login2 example_marshal 7 1 (λ _ _, ret (spec.OpenOk ""))
            (codec.FrameMethod 0 (spec.Tune 0 4096 0))
            (new_Connection "/" None None)))
  = true.
Proof.
  apply (login2_opens_connection example_marshal 7 1
           (λ _ _, ret (spec.OpenOk "")) (new_Connection "/" None None)
           0 0 4096 0 "").
  - intros. reflexivity.
  - reflexivity.
Defined.

Lemma handshake_opens_connection_witness :
  let s0 := snd (__init__ example_marshal (0, 9) 5672 (λ _ _, ret tt)
                   (ret tt) 0 "localhost" None "/" None None false) in
  let r1 := call_frame_handler example_marshal 7 1
              (λ _ _, ret (spec.OpenOk "")) (λ _ _, ret tt)
              (frame_handler s0)
              (codec.FrameMethod 0 (spec.Start "PLAIN")) s0 in
  let r2 := call_frame_handler example_marshal 7 1
              (λ _ _, ret (spec.OpenOk "")) (λ _ _, ret tt)
              (frame_handler (snd r1))
              (codec.FrameMethod 0 (spec.Tune 0 4096 0)) (snd r1) in
  credentials (snd r2) = None.
Proof.
  apply (handshake_opens_connection example_marshal 7 1 (0, 9) 5672
           (λ _ _, ret tt) (ret tt) (λ _ _, ret (spec.OpenOk ""))
           (λ _ _, ret tt) 0 "localhost" None "/" None None "PLAIN" ""
           0 4096 0).
  - intros. reflexivity.
  - intros. reflexivity.
  - reflexivity.
Defined.

Lemma wait_for_open_waits_witness :
  wait_for_open (ret tt) 5 example_closed = (Return tt, example_closed).
Proof.
  destruct (wait_for_open_waits (ret tt) 5 example_closed) as (H & _).
  apply H. right. eexists. reflexivity.
Defined.

Lemma response_for_plain_witness :
  response_for {| username := "guest"; password := "guest" |}
    (spec.Start "AMQPLAIN PLAIN")
  = Return (Some ("PLAIN",
                  String zero "guest" ++ String zero "guest"))%string.
Proof.
  apply (response_for_plain {| username := "guest"; password := "guest" |}
           ["AMQPLAIN"; "PLAIN"]%string).
  - repeat constructor; discriminate.
  - apply list_elem_of_further, list_elem_of_here.
Defined.

Lemma close_normal_shutdown_witness :
  close example_marshal 7 1 (λ _ _, ret spec.CloseOk) (example_tuned 4 4096)
  = (Return tt,
     set_channels ∅
       (set_connection_close (Some (spec.Close 200 "Normal shutdown" 0 0))
          (set_outbound_buffer [x01]
             (set_connection_open false (example_tuned 4 4096))))).
Proof.
  destruct (close_normal_shutdown example_marshal 7 1
              (λ _ _, ret spec.CloseOk) (example_tuned 4 4096)
              (channel.set_async spec.cClose
                 channel._async_connection_close_cb (channel.fresh 0))
              spec.CloseOk) as (H & _).
  1-5: reflexivity.
  rewrite H. vm_compute. reflexivity.
Defined.

Lemma close_with_failing_rpc_witness :
  close example_marshal 7 1 (λ _ _, raise socket_error)
        (example_tuned 4 4096)
  = (Raise socket_error,
     set_outbound_buffer [x01]
       (set_connection_open false (example_tuned 4 4096))).
Proof.
  destruct (close_with_failing_rpc example_marshal 7 1
              (λ _ _, raise socket_error) (example_tuned 4 4096)
              (set_outbound_buffer [x01]
                 (set_connection_open false (example_tuned 4 4096)))
              (channel.set_async spec.cClose
                 channel._async_connection_close_cb (channel.fresh 0))
              socket_error) as (H & _).
  1-5: reflexivity.
  exact H.
Defined.
